(** * XSS detection engine (xss_detector.py): model and verified properties

    The development embeds [XSSDetector] of [xss_detector.py]: the signature
    catalogue, the decoding step, the scan, the risk classification, the
    request analysis, the statistics and the log export.  Python text is a
    sequence of Unicode code points; the pieces of the Python library the
    class calls ([re], [urllib.parse.unquote_plus], [json.dump]) are modelled
    at the precision the detector observes.  The last parts embed the
    callers of the detector: the packet handling of the POX controller
    ([pox_xss_detector.py]) and the encoding the test script applies to its
    payloads ([test_xss_attacks.py]). *)

From Stdlib Require Import NArith Ascii String DecimalString.
From stdpp Require Import prelude gmap.

Local Open Scope N_scope.

(** ** Text *)

(** A Python [str]: the list of its code points. *)
Abbreviation pystr := (list N).

Definition chr (a : ascii) : N := N_of_ascii a.

(** A string literal of the source, as code points. *)
Definition py (s : string) : pystr := chr <$> list_ascii_of_string s.

Definition in_range (lo hi c : N) : bool := (lo <=? c) && (c <=? hi).

Definition is_ascii_upper (c : N) : bool := in_range 65 90 c.
Definition is_ascii_lower (c : N) : bool := in_range 97 122 c.
Definition is_ascii_digit (c : N) : bool := in_range 48 57 c.
Definition is_ascii_letter (c : N) : bool := is_ascii_upper c || is_ascii_lower c.
Definition is_ascii_alnum (c : N) : bool := is_ascii_letter c || is_ascii_digit c.

Definition ascii_lower (c : N) : N := if is_ascii_upper c then c + 32 else c.

(** U+FFFD, what the [replace] error handler of a codec puts for bytes
    that are no UTF-8. *)
Definition REPLACEMENT : N := 0xFFFD.

(** ** Regular expressions: the fragment of [re] the catalogue uses

    Every signature is a sequence of one-character atoms, each with a
    repetition, and has no group: [findall] returns whole matches. *)

Inductive atom : Type :=
  | Lit (c : N)        (* a literal character, compared under IGNORECASE *)
  | NotLit (c : N)     (* [^c] *)
  | AnyChar            (* .  (no DOTALL: every character but a newline) *)
  | Word               (* \w *)
  | Space.             (* \s *)

Inductive quant : Type :=
  | One                (* no repetition *)
  | Star               (* *  greedy *)
  | StarLazy           (* *? *)
  | Plus.              (* +  greedy *)

Definition regex : Type := list (atom * quant).

(** *** [re.compile] on that fragment *)

Inductive pmode : Type :=
  | PNormal
  | PEscape                (* after a backslash *)
  | PClassOpen             (* after [ *)
  | PClassNeg              (* after [^ *)
  | PClassLit (c : N).     (* after [^c *)

(** Characters with a meaning of their own in a pattern, which the fragment
    does not take as literals. *)
Definition is_special (c : N) : bool :=
  bool_decide (c ∈ py "()|^${}]").

(** The items read so far are kept last first. *)
Definition requantify (items : list (atom * quant)) (c : N) : option (list (atom * quant)) :=
  match items with
  | (a, One) :: rest =>
      if c =? chr "*" then Some ((a, Star) :: rest)
      else if c =? chr "+" then Some ((a, Plus) :: rest)
      else None
  | (a, Star) :: rest =>
      if c =? chr "?" then Some ((a, StarLazy) :: rest) else None
  | _ => None
  end.

Definition parse_step (st : pmode * list (atom * quant)) (c : N)
  : option (pmode * list (atom * quant)) :=
  let '(mode, items) := st in
  match mode with
  | PNormal =>
      if c =? chr "\" then Some (PEscape, items)
      else if c =? chr "[" then Some (PClassOpen, items)
      else if c =? chr "." then Some (PNormal, (AnyChar, One) :: items)
      else if (c =? chr "*") || (c =? chr "+") || (c =? chr "?") then
        items' ← requantify items c; Some (PNormal, items')
      else if is_special c || (128 <=? c) then None
      else Some (PNormal, (Lit c, One) :: items)
  | PEscape =>
      if c =? chr "w" then Some (PNormal, (Word, One) :: items)
      else if c =? chr "s" then Some (PNormal, (Space, One) :: items)
      else if is_ascii_alnum c || (128 <=? c) then None
      else Some (PNormal, (Lit c, One) :: items)
  | PClassOpen =>
      if c =? chr "^" then Some (PClassNeg, items) else None
  | PClassNeg =>
      if is_ascii_letter c || (128 <=? c) || bool_decide (c ∈ py "\[]^-") then None
      else Some (PClassLit c, items)
  | PClassLit c0 =>
      if c =? chr "]" then Some (PNormal, (NotLit c0, One) :: items) else None
  end.

Fixpoint parse_from (st : pmode * list (atom * quant)) (s : pystr)
  : option (pmode * list (atom * quant)) :=
  match s with
  | [] => Some st
  | c :: s' => st' ← parse_step st c; parse_from st' s'
  end.

(** A pattern that could match the empty string is refused: every signature
    needs at least one character, and the scan below relies on it. *)
Definition consumes (r : regex) : bool :=
  existsb (λ it, match it.2 with One | Plus => true | _ => false end) r.

Definition re_compile (src : pystr) : option regex :=
  match parse_from (PNormal, []) src with
  | Some (PNormal, items) =>
      let r := reverse items in if consumes r then Some r else None
  | _ => None
  end.

(** *** Matching *)

(** The code points, other than the two cases of the letter itself, that
    IGNORECASE takes for an ASCII letter: U+0130 and U+0131 for [i], U+017F
    for [s], U+212A for [k]. *)
Definition fold_extra (lo c : N) : bool :=
  ((lo =? chr "i") && ((c =? 0x130) || (c =? 0x131)))
  || ((lo =? chr "s") && (c =? 0x17F))
  || ((lo =? chr "k") && (c =? 0x212A)).

Definition lit_match (l c : N) : bool :=
  if is_ascii_letter l then
    (ascii_lower c =? ascii_lower l) || fold_extra (ascii_lower l) c
  else c =? l.

(** [str.isspace] of one character, which is what [\s] tests. *)
Definition is_space (c : N) : bool :=
  in_range 0x09 0x0D c || in_range 0x1C 0x20 c || (c =? 0x85) || (c =? 0xA0)
  || (c =? 0x1680) || in_range 0x2000 0x200A c || (c =? 0x2028) || (c =? 0x2029)
  || (c =? 0x202F) || (c =? 0x205F) || (c =? 0x3000).

Section Matching.

(** [str.isalnum] on the code points from 128 on: the table of the Unicode
    database, which is not reproduced here.  Nothing below depends on its
    values. *)
Variable unicode_isalnum : N → bool.

(** [\w]: alphanumeric or an underscore.  The four letters of
    [fold_extra] are letters whatever the table says elsewhere. *)
Definition is_word (c : N) : bool :=
  if c <? 128 then is_ascii_alnum c || (c =? chr "_")
  else bool_decide (c ∈ [0x130; 0x131; 0x17F; 0x212A]) || unicode_isalnum c.

Definition atom_match (a : atom) (c : N) : bool :=
  match a with
  | Lit l => lit_match l c
  | NotLit l => negb (c =? l)
  | AnyChar => negb (c =? 10)
  | Word => is_word c
  | Space => is_space c
  end.

(** A greedy repetition of the characters [m] accepts, then [k]: the
    longest run first, one character given back at a time. *)
Fixpoint star_greedy (m : N → bool) (k : pystr → option nat) (s : pystr) : option nat :=
  match s with
  | c :: s' =>
      if m c then
        match star_greedy m k s' with
        | Some n => Some (S n)
        | None => k s
        end
      else k s
  | [] => k s
  end.

(** A lazy repetition: [k] first, one more character when [k] fails. *)
Fixpoint star_lazy (m : N → bool) (k : pystr → option nat) (s : pystr) : option nat :=
  match k s with
  | Some n => Some n
  | None =>
      match s with
      | c :: s' => if m c then S <$> star_lazy m k s' else None
      | [] => None
      end
  end.

Definition one_char (m : N → bool) (k : pystr → option nat) (s : pystr) : option nat :=
  match s with
  | c :: s' => if m c then S <$> k s' else None
  | [] => None
  end.

(** [pattern.match] at the start of [s]: the length of the match the
    backtracking search finds first. *)
Fixpoint match_here (r : regex) : pystr → option nat :=
  match r with
  | [] => λ _, Some 0%nat
  | (a, q) :: r' =>
      let m := atom_match a in
      let k := match_here r' in
      match q with
      | One => one_char m k
      | Star => star_greedy m k
      | StarLazy => star_lazy m k
      | Plus => one_char m (star_greedy m k)
      end
  end.

(** [pattern.findall]: the matches from left to right, none overlapping
    another.  [skip] counts the characters still covered by the last
    match. *)
Fixpoint findall_from (r : regex) (skip : nat) (s : pystr) : list pystr :=
  match s with
  | [] => []
  | _ :: s' =>
      match skip with
      | S k => findall_from r k s'
      | O =>
          match match_here r s with
          | Some n => take n s :: findall_from r (pred n) s'
          | None => findall_from r 0 s'
          end
      end
  end.

Definition findall (r : regex) (s : pystr) : list pystr := findall_from r 0 s.

End Matching.

(** ** Decoding: [urllib.parse.unquote_plus]

    [unquote_plus] puts a space for every [+] and hands over to [unquote],
    which returns a string without [%] as it is and otherwise reads every
    run of ASCII characters as bytes, each [%XX] with two hexadecimal digits
    standing for one byte and any other [%] for itself, and decodes the
    bytes as UTF-8 with the [replace] error handler.  Characters outside
    ASCII separate the runs and pass through. *)

Definition replace_plus (s : pystr) : pystr :=
  (λ c, if c =? chr "+" then chr " " else c) <$> s.

Definition hexval (c : N) : option N :=
  if is_ascii_digit c then Some (c - 48)
  else if in_range 65 70 c then Some (c - 55)
  else if in_range 97 102 c then Some (c - 87)
  else None.

(** What the decoder reads: a byte of an ASCII run, or a character from
    outside the runs. *)
Inductive unit8 : Type :=
  | Byte (b : N)
  | Raw (c : N).

Definition unit_of_char (c : N) : unit8 := if c <? 128 then Byte c else Raw c.

Fixpoint unquote_units (s : pystr) : list unit8 :=
  match s with
  | [] => []
  | c :: t =>
      if c =? chr "%" then
        match t with
        | h1 :: h2 :: r =>
            match hexval h1, hexval h2 with
            | Some a, Some b => Byte (16 * a + b) :: unquote_units r
            | _, _ => Byte c :: unquote_units t
            end
        | _ => Byte c :: unquote_units t
        end
      else unit_of_char c :: unquote_units t
  end.

Definition is_cont (b : N) : bool := in_range 0x80 0xBF b.

(** The second byte a lead byte admits (no overlong form, no surrogate,
    nothing above U+10FFFF). *)
Definition second_ok (b0 b1 : N) : bool :=
  if b0 =? 0xE0 then in_range 0xA0 0xBF b1
  else if b0 =? 0xED then in_range 0x80 0x9F b1
  else if b0 =? 0xF0 then in_range 0x90 0xBF b1
  else if b0 =? 0xF4 then in_range 0x80 0x8F b1
  else is_cont b1.

Definition cont_bits (b : N) : N := b - 0x80.

(** [bytes.decode('utf-8', 'replace')]: one U+FFFD for every byte that
    cannot start a character and for every started character that is cut
    short, the bytes read so far being dropped and the decoder resuming at
    the byte that did not fit. *)
Fixpoint utf8_replace (l : list unit8) : pystr :=
  match l with
  | [] => []
  | Raw c :: t => c :: utf8_replace t
  | Byte b0 :: t =>
      if b0 <? 0x80 then b0 :: utf8_replace t
      else if in_range 0xC2 0xDF b0 then
        match t with
        | Byte b1 :: t1 =>
            if is_cont b1 then ((b0 - 0xC0) * 64 + cont_bits b1) :: utf8_replace t1
            else REPLACEMENT :: utf8_replace t
        | _ => REPLACEMENT :: utf8_replace t
        end
      else if in_range 0xE0 0xEF b0 then
        match t with
        | Byte b1 :: t1 =>
            if second_ok b0 b1 then
              match t1 with
              | Byte b2 :: t2 =>
                  if is_cont b2 then
                    ((b0 - 0xE0) * 4096 + cont_bits b1 * 64 + cont_bits b2) :: utf8_replace t2
                  else REPLACEMENT :: utf8_replace t1
              | _ => REPLACEMENT :: utf8_replace t1
              end
            else REPLACEMENT :: utf8_replace t
        | _ => REPLACEMENT :: utf8_replace t
        end
      else if in_range 0xF0 0xF4 b0 then
        match t with
        | Byte b1 :: t1 =>
            if second_ok b0 b1 then
              match t1 with
              | Byte b2 :: t2 =>
                  if is_cont b2 then
                    match t2 with
                    | Byte b3 :: t3 =>
                        if is_cont b3 then
                          ((b0 - 0xF0) * 262144 + cont_bits b1 * 4096
                           + cont_bits b2 * 64 + cont_bits b3) :: utf8_replace t3
                        else REPLACEMENT :: utf8_replace t2
                    | _ => REPLACEMENT :: utf8_replace t2
                    end
                  else REPLACEMENT :: utf8_replace t1
              | _ => REPLACEMENT :: utf8_replace t1
              end
            else REPLACEMENT :: utf8_replace t
        | _ => REPLACEMENT :: utf8_replace t
        end
      else REPLACEMENT :: utf8_replace t
  end.

(** The [errors] argument of [bytes.decode]: [strict] raises at bytes
    that are no UTF-8, [replace] puts U+FFFD for them and goes on. *)
Inductive error_handler : Type := Strict | Replace.

(** What the codec does at such bytes, [None] standing for the
    [UnicodeDecodeError]; [rest] is the decoding of what follows. *)
Definition on_invalid (errors : error_handler) (rest : option pystr) : option pystr :=
  match errors with
  | Strict => None
  | Replace => cons REPLACEMENT <$> rest
  end.

(** [bytes.decode('utf-8', errors)], run by run. *)
Fixpoint utf8_decode (errors : error_handler) (l : list unit8) : option pystr :=
  match l with
  | [] => Some []
  | Raw c :: t => cons c <$> utf8_decode errors t
  | Byte b0 :: t =>
      if b0 <? 0x80 then cons b0 <$> utf8_decode errors t
      else if in_range 0xC2 0xDF b0 then
        match t with
        | Byte b1 :: t1 =>
            if is_cont b1 then cons ((b0 - 0xC0) * 64 + cont_bits b1) <$> utf8_decode errors t1
            else on_invalid errors (utf8_decode errors t)
        | _ => on_invalid errors (utf8_decode errors t)
        end
      else if in_range 0xE0 0xEF b0 then
        match t with
        | Byte b1 :: t1 =>
            if second_ok b0 b1 then
              match t1 with
              | Byte b2 :: t2 =>
                  if is_cont b2 then
                    cons ((b0 - 0xE0) * 4096 + cont_bits b1 * 64 + cont_bits b2) <$> utf8_decode errors t2
                  else on_invalid errors (utf8_decode errors t1)
              | _ => on_invalid errors (utf8_decode errors t1)
              end
            else on_invalid errors (utf8_decode errors t)
        | _ => on_invalid errors (utf8_decode errors t)
        end
      else if in_range 0xF0 0xF4 b0 then
        match t with
        | Byte b1 :: t1 =>
            if second_ok b0 b1 then
              match t1 with
              | Byte b2 :: t2 =>
                  if is_cont b2 then
                    match t2 with
                    | Byte b3 :: t3 =>
                        if is_cont b3 then
                          cons ((b0 - 0xF0) * 262144 + cont_bits b1 * 4096
                           + cont_bits b2 * 64 + cont_bits b3) <$> utf8_decode errors t3
                        else on_invalid errors (utf8_decode errors t2)
                    | _ => on_invalid errors (utf8_decode errors t2)
                    end
                  else on_invalid errors (utf8_decode errors t1)
              | _ => on_invalid errors (utf8_decode errors t1)
              end
            else on_invalid errors (utf8_decode errors t)
        | _ => on_invalid errors (utf8_decode errors t)
        end
      else on_invalid errors (utf8_decode errors t)
  end.

(** [urllib.parse.unquote(s)], whose handler is [replace]. *)
Definition unquote (s : pystr) : pystr :=
  if bool_decide (chr "%" ∈ s) then utf8_replace (unquote_units s) else s.

Definition unquote_plus (s : pystr) : pystr := unquote (replace_plus s).

(** [urllib.parse.unquote(s, errors=errors)] with the exception it can
    raise. *)
Definition unquote_with (errors : error_handler) (s : pystr) : option pystr :=
  if bool_decide (chr "%" ∈ s) then utf8_decode errors (unquote_units s) else Some s.

(** The call as [detect_xss] makes it, with the default handler, [None]
    standing for an exception. *)
Definition call_unquote_plus (s : pystr) : option pystr :=
  unquote_with Replace (replace_plus s).

(** The [try] around the decoding in [detect_xss]: the handler keeps
    [content] when the call raises. *)
Definition decoded_content (content : pystr) : pystr :=
  match call_unquote_plus content with
  | Some decoded => decoded
  | None => content
  end.

(** ** The detector *)

Inductive risk : Type := High | Medium | Low.

#[global] Instance risk_eq_dec : EqDecision risk.
Proof. solve_decision. Defined.

(** One entry of [detected_patterns]. *)
Record detected_pattern : Type := {
  pattern_id : nat;
  pattern : pystr;
  matches : list pystr
}.

(** The dictionary [attack_info]. *)
Record attack_info : Type := {
  timestamp : pystr;
  source_ip : pystr;
  url : pystr;
  detected_patterns : list detected_pattern;
  ai_risk_level : risk;
  content_sample : pystr
}.

(** What [detect_xss] returns.  [attack_info] is there on a detection only,
    [location] once [analyze_http_request] has set it. *)
Record result : Type := {
  detected : bool;
  patterns : list detected_pattern;
  risk_level : risk;
  res_attack_info : option attack_info;
  location : option pystr
}.

Inductive log_level : Type := INFO | WARNING | ERROR.

(** The state the calls share: the two fields of the detector that are
    assigned after [__init__], and the records handed to the module's
    [logger]. *)
Record state : Type := {
  detection_count : nat;
  attack_log : list attack_info;
  emitted : list (log_level * pystr)
}.

(** [self.xss_patterns], in the order of the source. *)
Definition xss_patterns : list pystr := py <$> [
  (* Script tags *)
  "<script[^>]*>.*?</script>";
  "<script[^>]*>";
  "javascript:";
  (* Event handlers *)
  "on\w+\s*=";
  "onerror\s*=";
  "onload\s*=";
  "onclick\s*=";
  "onmouseover\s*=";
  (* Common XSS payloads *)
  "alert\s*\(";
  "prompt\s*\(";
  "confirm\s*\(";
  "document\.cookie";
  "document\.write";
  "eval\s*\(";
  (* HTML injection *)
  "<iframe[^>]*>";
  "<object[^>]*>";
  "<embed[^>]*>";
  "<img[^>]*onerror";
  "<svg[^>]*onload";
  (* URL-based attacks *)
  "data:\s*text/html";
  "vbscript:";
  "livescript:";
  (* Advanced patterns *)
  "String\.fromCharCode";
  "unescape\s*\(";
  "setTimeout\s*\(";
  "setInterval\s*\("
]%string.

(** [self.compiled_patterns]. *)
Definition compiled_patterns : list regex :=
  Eval vm_compute in default [] (mapM re_compile xss_patterns).

Definition string_of_nat (n : nat) : pystr :=
  py (NilEmpty.string_of_uint (Nat.to_uint n)).

Definition risk_name (r : risk) : pystr :=
  match r with High => py "high" | Medium => py "medium" | Low => py "low" end.

Definition high_risk_patterns : list nat := [0; 1; 2; 3; 4; 5; 6; 10; 11; 12]%nat.
Definition medium_risk_patterns : list nat := [7; 8; 9; 13; 14; 15; 16]%nat.

Definition _calculate_risk_level (patterns : list detected_pattern) : risk :=
  let pattern_ids := pattern_id <$> patterns in
  if existsb (λ pid, bool_decide (pid ∈ high_risk_patterns)) pattern_ids then High
  else if existsb (λ pid, bool_decide (pid ∈ medium_risk_patterns)) pattern_ids then Medium
  else Low.

Definition attack_message (info : attack_info) : pystr :=
  py "XSS ATTACK DETECTED! "
  ++ py "Source: " ++ source_ip info ++ py " | "
  ++ py "URL: " ++ url info ++ py " | "
  ++ py "Risk: " ++ risk_name (ai_risk_level info) ++ py " | "
  ++ py "Patterns: " ++ string_of_nat (length (detected_patterns info)).

Definition _log_attack (st : state) (info : attack_info) : state :=
  {| detection_count := detection_count st;
     attack_log := attack_log st;
     emitted := emitted st ++ [(WARNING, attack_message info)] |}.

Definition not_detected : result :=
  {| detected := false; patterns := []; risk_level := Low;
     res_attack_info := None; location := None |}.

(** [XSSDetector.__init__]. *)
Definition init : state :=
  {| detection_count := 0;
     attack_log := [];
     emitted := [(INFO, py "XSS Detector initialized with "
                        ++ string_of_nat (length xss_patterns) ++ py " patterns")] |}.

Section Detector.

Variable unicode_isalnum : N → bool.

(** The loop over [enumerate(self.compiled_patterns)], from index [i]. *)
Fixpoint scan_from (i : nat) (compiled : list regex) (decoded : pystr)
  : list detected_pattern :=
  match compiled with
  | [] => []
  | r :: rest =>
      let found := findall unicode_isalnum r decoded in
      let more := scan_from (S i) rest decoded in
      match found with
      | [] => more
      | _ => {| pattern_id := i;
                pattern := default [] (xss_patterns !! i);
                matches := take 5 found |} :: more
      end
  end.

Definition scan (decoded : pystr) : list detected_pattern :=
  scan_from 0 compiled_patterns decoded.

(** [XSSDetector.detect_xss].  [now] is what [datetime.now().isoformat()]
    gives during the call. *)
Definition detect_xss (st : state) (content source_ip url now : pystr)
  : state * result :=
  match content with
  | [] => (st, not_detected)
  | _ =>
      let decoded := decoded_content content in
      let detected_patterns := scan decoded in
      if bool_decide (0 < length detected_patterns)%nat then
        let risk_level := _calculate_risk_level detected_patterns in
        let attack_info :=
          {| timestamp := now;
             source_ip := source_ip;
             url := url;
             detected_patterns := detected_patterns;
             ai_risk_level := risk_level;
             content_sample := take 200 decoded |} in
        let st1 :=
          {| detection_count := detection_count st + 1;
             attack_log := attack_log st ++ [attack_info];
             emitted := emitted st |} in
        (_log_attack st1 attack_info,
         {| detected := true;
            patterns := detected_patterns;
            risk_level := risk_level;
            res_attack_info := Some attack_info;
            location := None |})
      else (st, not_detected)
  end.

(** [header_name.lower() == target] for a target in lower-case ASCII.
    [str.lower] sends to an ASCII letter that letter in either case and,
    to [k], U+212A; no other character lowers to ASCII text. *)
Definition lower_is (c t : N) : bool :=
  ((c <? 128) && (ascii_lower c =? t)) || ((c =? 0x212A) && (t =? chr "k")).

Fixpoint lower_eq (name target : pystr) : bool :=
  match name, target with
  | [], [] => true
  | c :: name', t :: target' => lower_is c t && lower_eq name' target'
  | _, _ => false
  end.

Definition inspected_headers : list pystr :=
  [py "user-agent"; py "referer"; py "x-forwarded-for"].

Definition is_inspected (header_name : pystr) : bool :=
  existsb (lower_eq header_name) inspected_headers.

Definition with_location (r : result) (loc : pystr) : result :=
  {| detected := detected r; patterns := patterns r; risk_level := risk_level r;
     res_attack_info := res_attack_info r; location := Some loc |}.

(** What [analyze_http_request] returns. *)
Record verdict : Type := {
  v_detected : bool;
  results : list result;
  total_detections : nat
}.

(** The running state of [analyze_http_request]: the detector, the
    number of calls of [detect_xss] made so far, and [results]. *)
Definition progress : Type := state * nat * list result.

(** One call of [detect_xss] and the [append] that follows a detection.
    [clock k] is the time the [k]-th call of the request reads. *)
Definition inspect (clock : nat → pystr) (source_ip url : pystr)
    (p : progress) (content loc : pystr) : progress :=
  let '(st, k, results) := p in
  let '(st', r) := detect_xss st content source_ip url (clock k) in
  (st', S k, if detected r then results ++ [with_location r loc] else results).

(** The loop over [headers.items()]: a dictionary in the order of
    insertion. *)
Fixpoint inspect_headers (clock : nat → pystr) (source_ip url : pystr)
    (p : progress) (headers : list (pystr * pystr)) : progress :=
  match headers with
  | [] => p
  | (header_name, header_value) :: rest =>
      let p' :=
        if is_inspected header_name
        then inspect clock source_ip url p header_value (py "Header-" ++ header_name)
        else p in
      inspect_headers clock source_ip url p' rest
  end.

(** [XSSDetector.analyze_http_request]. *)
Definition analyze_http_request (st : state) (clock : nat → pystr)
    (method url : pystr) (headers : list (pystr * pystr)) (body source_ip : pystr)
  : state * verdict :=
  let p0 : progress := (st, 0%nat, []) in
  let p1 := inspect clock source_ip url p0 url (py "URL") in
  let p2 := inspect_headers clock source_ip url p1 headers in
  let p3 :=
    match body with
    | [] => p2
    | _ => inspect clock source_ip url p2 body (py "Body")
    end in
  let '(st', _, results) := p3 in
  (st', {| v_detected := bool_decide (0 < length results)%nat;
           results := results;
           total_detections := length results |}).

End Detector.

(** ** Statistics *)

(** The dictionary [risk_levels]. *)
Record risk_counts : Type := { high : nat; medium : nat; low : nat }.

Definition bump (c : risk_counts) (r : risk) : risk_counts :=
  match r with
  | High => {| high := high c + 1; medium := medium c; low := low c |}
  | Medium => {| high := high c; medium := medium c + 1; low := low c |}
  | Low => {| high := high c; medium := medium c; low := low c + 1 |}
  end.

Record statistics : Type := {
  stat_total_detections : nat;
  risk_levels : risk_counts;
  recent_attacks : list attack_info;
  patterns_loaded : nat
}.

(** [l[-n:]] for a positive [n]. *)
Definition last_n {A} (n : nat) (l : list A) : list A := drop (length l - n) l.

(** [XSSDetector.get_statistics]. *)
Definition get_statistics (st : state) : statistics :=
  let risk_levels :=
    foldl (λ c attack, bump c (ai_risk_level attack))
          {| high := 0; medium := 0; low := 0 |} (attack_log st) in
  {| stat_total_detections := detection_count st;
     risk_levels := risk_levels;
     recent_attacks := last_n 10 (attack_log st);
     patterns_loaded := length xss_patterns |}.

(** ** The export of the log: [json.dump(obj, f, indent=2)] *)

#[warnings="-register-all"]
Inductive json : Type :=
  | JString (s : pystr)
  | JInt (n : nat)
  | JArray (items : list json)
  | JObject (members : list (pystr * json)).

Definition QUOTE : N := 34.
Definition NEWLINE : N := 10.

Definition hex_digit (d : N) : N := if d <? 10 then 48 + d else 87 + d.

(** [\uXXXX], four hexadecimal digits in lower case. *)
Definition u_escape (n : N) : pystr :=
  py "\u" ++ [hex_digit (n / 4096 mod 16); hex_digit (n / 256 mod 16);
              hex_digit (n / 16 mod 16); hex_digit (n mod 16)].

(** One character of a string under [ensure_ascii]. *)
Definition json_char (c : N) : pystr :=
  if c =? QUOTE then [chr "\"; QUOTE]
  else if c =? chr "\" then py "\\"
  else if c =? 10 then py "\n"
  else if c =? 13 then py "\r"
  else if c =? 9 then py "\t"
  else if c =? 8 then py "\b"
  else if c =? 12 then py "\f"
  else if in_range 32 126 c then [c]
  else if c <? 0x10000 then u_escape c
  else u_escape (0xD800 + ((c - 0x10000) / 1024) mod 1024)
       ++ u_escape (0xDC00 + (c - 0x10000) mod 1024).

Definition json_string (s : pystr) : pystr :=
  [QUOTE] ++ mjoin (json_char <$> s) ++ [QUOTE].

(** A line break and the indentation of nesting depth [lvl]. *)
Definition newline_indent (lvl : nat) : pystr :=
  NEWLINE :: replicate (2 * lvl) (chr " ").

Fixpoint json_dumps (lvl : nat) (j : json) : pystr :=
  match j with
  | JString s => json_string s
  | JInt n => string_of_nat n
  | JArray [] => py "[]"
  | JArray (x :: xs) =>
      py "[" ++ newline_indent (S lvl) ++ json_dumps (S lvl) x
      ++ (fix more (l : list json) : pystr :=
            match l with
            | [] => []
            | y :: l' => py "," ++ newline_indent (S lvl) ++ json_dumps (S lvl) y ++ more l'
            end) xs
      ++ newline_indent lvl ++ py "]"
  | JObject [] => py "{}"
  | JObject ((k, v) :: ms) =>
      py "{" ++ newline_indent (S lvl) ++ json_string k ++ py ": " ++ json_dumps (S lvl) v
      ++ (fix more (l : list (pystr * json)) : pystr :=
            match l with
            | [] => []
            | (k', v') :: l' =>
                py "," ++ newline_indent (S lvl) ++ json_string k' ++ py ": "
                ++ json_dumps (S lvl) v' ++ more l'
            end) ms
      ++ newline_indent lvl ++ py "}"
  end.

Definition json_of_pattern (p : detected_pattern) : json :=
  JObject [(py "pattern_id", JInt (pattern_id p));
           (py "pattern", JString (pattern p));
           (py "matches", JArray (JString <$> matches p))].

Definition json_of_attack (a : attack_info) : json :=
  JObject [(py "timestamp", JString (timestamp a));
           (py "source_ip", JString (source_ip a));
           (py "url", JString (url a));
           (py "detected_patterns", JArray (json_of_pattern <$> detected_patterns a));
           (py "risk_level", JString (risk_name (ai_risk_level a)));
           (py "content_sample", JString (content_sample a))].

(** The files the model follows: the regular files, but for the one the
    [logging] module appends its records to.  [files] gives the text each
    of them holds, if it exists; [resolve] tells which of them a path
    names.  Two paths can name one file, and a path can name what is not
    followed here (the log of the [logging] module, a device, a pipe):
    [resolve] is [None] for it. *)
Record filesystem : Type := {
  files : gmap N pystr;
  resolve : pystr → option N
}.

(** What the operating system makes of one call of [save_log_to_file]. *)
Inductive save_outcome : Type :=
  | SaveDone                              (* opened, written and closed *)
  | OpenFails (e : pystr)                 (* [open] raises; [e] is the text of the exception *)
  | WriteFails (written : nat) (e : pystr).
      (* [json.dump] or the close of the file raises after [written]
         characters have reached the file *)

(** The file a path names, emptied by [open(path, 'w')] and holding
    [text] when it is closed. *)
Definition write_file (fs : filesystem) (filename text : pystr) : filesystem :=
  match resolve fs filename with
  | Some f => {| files := <[f := text]> (files fs); resolve := resolve fs |}
  | None => fs
  end.

Definition log_record (st : state) (lv : log_level) (msg : pystr) : state :=
  {| detection_count := detection_count st;
     attack_log := attack_log st;
     emitted := emitted st ++ [(lv, msg)] |}.

(** [XSSDetector.save_log_to_file]: mode ['w'] empties the file, then the
    whole log is written as one JSON array.  The [try] holds the [open],
    the [json.dump] and the close of the [with] block: whichever of them
    raises, the handler logs the error, and a write that fails leaves in
    the file what had reached it. *)
Definition save_log_to_file (st : state) (filename : pystr) (fs : filesystem)
    (io : save_outcome) : state * filesystem :=
  let text := json_dumps 0 (JArray (json_of_attack <$> attack_log st)) in
  match io with
  | SaveDone =>
      (log_record st INFO (py "Attack log saved to " ++ filename),
       write_file fs filename text)
  | OpenFails e =>
      (log_record st ERROR (py "Failed to save log: " ++ e), fs)
  | WriteFails written e =>
      (log_record st ERROR (py "Failed to save log: " ++ e),
       write_file fs filename (take written text))
  end.

(** A sequence of calls of [detect_xss], each with its content, source
    address, URL and clock reading. *)
Definition run_detects (tbl : N → bool) (st : state)
    (calls : list (list N * list N * list N * list N)) : state :=
  foldl (λ st '(content, source_ip, url, now),
           (detect_xss tbl st content source_ip url now).1) st calls.

(** The order of the risk tiers. *)
Definition risk_rank (r : risk) : nat :=
  match r with Low => 0 | Medium => 1 | High => 2 end.

(** * Properties *)

(** ** What the end of a decoded text can hold

    The decoding of a text and of the text with more after it differ at the
    end only: in an escape that was not complete yet ([%] alone or with one
    hexadecimal digit) and in a UTF-8 character that was cut short, which
    decodes to U+FFFD. *)

Definition is_hex (c : N) : bool :=
  match hexval c with Some _ => true | None => false end.

Definition hex_digits : pystr := py "0123456789ABCDEFabcdef".

Inductive decode_tail : pystr → Prop :=
  | tail_nil : decode_tail []
  | tail_percent : decode_tail [chr "%"]
  | tail_percent_hex h : is_hex h = true → decode_tail [chr "%"; h]
  | tail_cut y : decode_tail y → decode_tail (REPLACEMENT :: y).

(** No match of the signature ends inside such an end: its last item is a
    literal that is neither U+FFFD nor [%], and when it is a hexadecimal
    digit the item before is a literal other than [%]. *)
Definition tail_safe (r : regex) : bool :=
  match reverse r with
  | (Lit c2, One) :: before =>
      negb (lit_match c2 REPLACEMENT) && negb (lit_match c2 (chr "%"))
      && (negb (existsb (lit_match c2) hex_digits)
          || match before with
             | (Lit c1, One) :: _ => negb (lit_match c1 (chr "%"))
             | _ => false
             end)
  | _ => false
  end.

Lemma in_range_spec lo hi c : in_range lo hi c = true ↔ lo ≤ c ≤ hi.
Proof. unfold in_range. rewrite andb_true_iff, !N.leb_le. tauto. Qed.

Lemma is_hex_digits h : is_hex h = true → h ∈ hex_digits.
Proof.
  intros Hh. assert (h < 128) as Hlt.
  { revert Hh. unfold is_hex, hexval, is_ascii_digit.
    repeat (case_match; try done); intros _;
      match goal with H : in_range _ _ _ = true |- _ => apply in_range_spec in H; lia end. }
  assert (Forall (λ n, is_hex (N.of_nat n) = true → N.of_nat n ∈ hex_digits) (seq 0 128))
    as Hall by (apply (bool_decide_unpack _); by vm_compute).
  rewrite Forall_forall in Hall. rewrite <-(N2Nat.id h) in Hh |- *.
  apply Hall; [|done]. apply elem_of_seq. lia.
Qed.

Lemma decode_tail_inv Y k x b :
  decode_tail Y → Y = k ++ x :: b →
  x = REPLACEMENT ∨ x = chr "%" ∨ (is_hex x = true ∧ ∃ k', k = k' ++ [chr "%"]).
Proof.
  intros HY. revert k. induction HY as [| |h Hh|y Hy IH]; intros k Heq.
  - by destruct k.
  - destruct k as [|? [|??]]; simplify_eq/=. auto.
  - destruct k as [|? [|? [|??]]]; simplify_eq/=; [auto|].
    right; right. split; [done|]. by exists [].
  - destruct k as [|x0 k]; simplify_eq/=; [auto|].
    destruct (IH _ eq_refl) as [?|[?|[? [k' ->]]]]; auto.
    right; right. split; [done|]. by exists (REPLACEMENT :: k').
Qed.

(** ** Decoding a text and a longer one *)

(** An escape the text ends in before it is complete. *)
Inductive pending_escape : pystr → Prop :=
  | pe_none : pending_escape []
  | pe_percent : pending_escape [chr "%"]
  | pe_percent_hex h : is_hex h = true → pending_escape [chr "%"; h].

Lemma is_hex_ascii h : is_hex h = true → (h <? 128) = true ∧ (h =? chr "%") = false.
Proof.
  intros Hh%is_hex_digits.
  assert (Forall (λ h, (h <? 128) = true ∧ (h =? chr "%") = false) hex_digits) as Hall
    by (apply (bool_decide_unpack _); by vm_compute).
  rewrite Forall_forall in Hall. by apply Hall.
Qed.

Lemma unquote_units_percent t :
  unquote_units (chr "%" :: t) =
  match t with
  | h1 :: h2 :: r =>
      match hexval h1, hexval h2 with
      | Some a, Some b => Byte (16 * a + b) :: unquote_units r
      | _, _ => Byte (chr "%") :: unquote_units t
      end
  | _ => Byte (chr "%") :: unquote_units t
  end.
Proof. done. Qed.

Lemma unquote_units_other c t :
  (c =? chr "%") = false → unquote_units (c :: t) = unit_of_char c :: unquote_units t.
Proof. intros Hc. cbn [unquote_units]. by rewrite Hc. Qed.

Lemma unquote_units_pending T :
  pending_escape T → unquote_units T = Byte <$> T.
Proof.
  destruct 1 as [| |h Hh]; [done..|].
  apply is_hex_ascii in Hh as [Hlt Hne].
  rewrite unquote_units_percent, unquote_units_other by done.
  unfold unit_of_char. by rewrite Hlt.
Qed.

Lemma unquote_units_app C :
  ∃ U T, pending_escape T ∧ ∀ P, unquote_units (C ++ P) = U ++ unquote_units (T ++ P).
Proof.
  remember (length C) as n eqn:Hn. revert C Hn.
  induction n as [n IH] using lt_wf_ind. intros C ->.
  destruct C as [|c t].
  { exists [], []. split; [constructor|done]. }
  destruct (c =? chr "%") eqn:Hc.
  - apply N.eqb_eq in Hc as ->. destruct t as [|h1 [|h2 r]].
    + exists [], [chr "%"]. split; [constructor|done].
    + destruct (is_hex h1) eqn:Hh1.
      * exists [], [chr "%"; h1]. split; [by constructor|done].
      * destruct (IH 1%nat (ltac:(simpl; lia)) [h1] eq_refl) as (U & T & HT & HU).
        exists (Byte (chr "%") :: U), T. split; [done|]. intros P.
        cbn [app]. rewrite <-HU. cbn [app]. rewrite unquote_units_percent.
        unfold is_hex in Hh1. destruct P as [|p P]; [done|]. by destruct (hexval h1).
    + destruct (hexval h1) as [a|] eqn:Hh1; [destruct (hexval h2) as [b|] eqn:Hh2|].
      * destruct (IH (length r) (ltac:(simpl; lia)) r eq_refl) as (U & T & HT & HU).
        exists (Byte (16 * a + b) :: U), T. split; [done|]. intros P.
        cbn [app]. by rewrite unquote_units_percent, Hh1, Hh2, HU.
      * destruct (IH (length (h1 :: h2 :: r)) (ltac:(simpl; lia)) _ eq_refl)
          as (U & T & HT & HU).
        exists (Byte (chr "%") :: U), T. split; [done|]. intros P.
        cbn [app]. rewrite <-HU. cbn [app]. by rewrite unquote_units_percent, Hh1, Hh2.
      * destruct (IH (length (h1 :: h2 :: r)) (ltac:(simpl; lia)) _ eq_refl)
          as (U & T & HT & HU).
        exists (Byte (chr "%") :: U), T. split; [done|]. intros P.
        cbn [app]. rewrite <-HU. cbn [app]. by rewrite unquote_units_percent, Hh1.
  - destruct (IH (length t) (ltac:(simpl; lia)) t eq_refl) as (U & T & HT & HU).
    exists (unit_of_char c :: U), T. split; [done|]. intros P.
    cbn [app]. by rewrite unquote_units_other, HU.
Qed.

(** What follows a text: nothing, or an ASCII byte. *)
Definition starts_ascii (R : list unit8) : Prop :=
  R = [] ∨ ∃ b R', R = Byte b :: R' ∧ (b <? 0x80) = true.

(** The bytes of a character that is not complete yet. *)
Definition cut_short (F : list unit8) : Prop :=
  F = [] ∨ ∀ R, starts_ascii R → utf8_replace (F ++ R) = REPLACEMENT :: utf8_replace R.

Lemma ascii_not_cont b :
  (b <? 0x80) = true → is_cont b = false ∧ ∀ b0, second_ok b0 b = false.
Proof.
  intros Hb%N.ltb_lt. unfold second_ok, is_cont.
  assert (∀ lo hi, 0x80 ≤ lo → in_range lo hi b = false) as Hr.
  { intros lo hi Hlo. apply not_true_is_false. rewrite in_range_spec. lia. }
  split; [by apply Hr|]. intros b0. repeat case_match; by apply Hr.
Qed.

Lemma utf8_replace_byte b0 t :
  utf8_replace (Byte b0 :: t) =
  if b0 <? 0x80 then b0 :: utf8_replace t
  else if in_range 0xC2 0xDF b0 then
    match t with
    | Byte b1 :: t1 =>
        if is_cont b1 then ((b0 - 0xC0) * 64 + cont_bits b1) :: utf8_replace t1
        else REPLACEMENT :: utf8_replace t
    | _ => REPLACEMENT :: utf8_replace t
    end
  else if in_range 0xE0 0xEF b0 then
    match t with
    | Byte b1 :: t1 =>
        if second_ok b0 b1 then
          match t1 with
          | Byte b2 :: t2 =>
              if is_cont b2 then
                ((b0 - 0xE0) * 4096 + cont_bits b1 * 64 + cont_bits b2) :: utf8_replace t2
              else REPLACEMENT :: utf8_replace t1
          | _ => REPLACEMENT :: utf8_replace t1
          end
        else REPLACEMENT :: utf8_replace t
    | _ => REPLACEMENT :: utf8_replace t
    end
  else if in_range 0xF0 0xF4 b0 then
    match t with
    | Byte b1 :: t1 =>
        if second_ok b0 b1 then
          match t1 with
          | Byte b2 :: t2 =>
              if is_cont b2 then
                match t2 with
                | Byte b3 :: t3 =>
                    if is_cont b3 then
                      ((b0 - 0xF0) * 262144 + cont_bits b1 * 4096
                       + cont_bits b2 * 64 + cont_bits b3) :: utf8_replace t3
                    else REPLACEMENT :: utf8_replace t2
                | _ => REPLACEMENT :: utf8_replace t2
                end
              else REPLACEMENT :: utf8_replace t1
          | _ => REPLACEMENT :: utf8_replace t1
          end
        else REPLACEMENT :: utf8_replace t
    | _ => REPLACEMENT :: utf8_replace t
    end
  else REPLACEMENT :: utf8_replace t.
Proof. done. Qed.

Ltac utf8_unfold :=
  cbn [app]; rewrite utf8_replace_byte;
  repeat first
    [ match goal with
      | H : ?c = _ |- context [if ?c then _ else _] => rewrite H
      end
    | progress cbn [app] ].

Lemma utf8_replace_app U :
  ∃ D F, cut_short F ∧ ∀ R, utf8_replace (U ++ R) = D ++ utf8_replace (F ++ R).
Proof.
  remember (length U) as n eqn:Hn. revert U Hn.
  induction n as [n IH] using lt_wf_ind. intros U ->.
  assert (∀ h t', (length t' < length U)%nat →
            (∀ R, utf8_replace (U ++ R) = h :: utf8_replace (t' ++ R)) →
            ∃ D F, cut_short F ∧ ∀ R, utf8_replace (U ++ R) = D ++ utf8_replace (F ++ R))
    as commit.
  { intros h t' Hlen Hstep. destruct (IH _ Hlen t' eq_refl) as (D & F & HF & HD).
    exists (h :: D), F. split; [done|]. intros R. by rewrite Hstep, HD. }
  assert (cut_short U →
            ∃ D F, cut_short F ∧ ∀ R, utf8_replace (U ++ R) = D ++ utf8_replace (F ++ R))
    as pending.
  { intros HU. by exists [], U. }
  clear IH. destruct U as [|[b0|c] t].
  { apply pending. by left. }
  2: { apply (commit c t); [simpl; lia|done]. }
  destruct (b0 <? 0x80) eqn:H0.
  { apply (commit b0 t); [simpl; lia|]. intros R. by utf8_unfold. }
  destruct (in_range 0xC2 0xDF b0) eqn:H2.
  { destruct t as [|[b1|c1] t1].
    - apply pending. right. intros R [->|(b & R' & -> & [Hb _]%ascii_not_cont)];
        by utf8_unfold.
    - destruct (is_cont b1) eqn:H1.
      + eapply (commit _ t1); [simpl; lia|]. intros R. by utf8_unfold.
      + eapply (commit _ (Byte b1 :: t1)); [simpl; lia|]. intros R. by utf8_unfold.
    - eapply (commit _ (Raw c1 :: t1)); [simpl; lia|]. intros R. by utf8_unfold. }
  destruct (in_range 0xE0 0xEF b0) eqn:H3.
  { destruct t as [|[b1|c1] t1].
    - apply pending. right. intros R [->|(b & R' & -> & [_ Hb]%ascii_not_cont)];
        [|specialize (Hb b0)]; by utf8_unfold.
    - destruct (second_ok b0 b1) eqn:H1.
      + destruct t1 as [|[b2|c2] t2].
        * apply pending. right. intros R [->|(b & R' & -> & [Hb _]%ascii_not_cont)];
            by utf8_unfold.
        * destruct (is_cont b2) eqn:H4.
          -- eapply (commit _ t2); [simpl; lia|]. intros R. by utf8_unfold.
          -- eapply (commit _ (Byte b2 :: t2)); [simpl; lia|]. intros R. by utf8_unfold.
        * eapply (commit _ (Raw c2 :: t2)); [simpl; lia|]. intros R. by utf8_unfold.
      + eapply (commit _ (Byte b1 :: t1)); [simpl; lia|]. intros R. by utf8_unfold.
    - eapply (commit _ (Raw c1 :: t1)); [simpl; lia|]. intros R. by utf8_unfold. }
  destruct (in_range 0xF0 0xF4 b0) eqn:H4.
  { destruct t as [|[b1|c1] t1].
    - apply pending. right. intros R [->|(b & R' & -> & [_ Hb]%ascii_not_cont)];
        [|specialize (Hb b0)]; by utf8_unfold.
    - destruct (second_ok b0 b1) eqn:H1.
      + destruct t1 as [|[b2|c2] t2].
        * apply pending. right. intros R [->|(b & R' & -> & [Hb _]%ascii_not_cont)];
            by utf8_unfold.
        * destruct (is_cont b2) eqn:H5.
          -- destruct t2 as [|[b3|c3] t3].
             ++ apply pending. right.
                intros R [->|(b & R' & -> & [Hb _]%ascii_not_cont)]; by utf8_unfold.
             ++ destruct (is_cont b3) eqn:H6.
                ** eapply (commit _ t3); [simpl; lia|]. intros R. by utf8_unfold.
                ** eapply (commit _ (Byte b3 :: t3)); [simpl; lia|]. intros R.
                   by utf8_unfold.
             ++ eapply (commit _ (Raw c3 :: t3)); [simpl; lia|]. intros R. by utf8_unfold.
          -- eapply (commit _ (Byte b2 :: t2)); [simpl; lia|]. intros R. by utf8_unfold.
        * eapply (commit _ (Raw c2 :: t2)); [simpl; lia|]. intros R. by utf8_unfold.
      + eapply (commit _ (Byte b1 :: t1)); [simpl; lia|]. intros R. by utf8_unfold.
    - eapply (commit _ (Raw c1 :: t1)); [simpl; lia|]. intros R. by utf8_unfold. }
  eapply (commit _ t); [simpl; lia|]. intros R. by utf8_unfold.
Qed.

Lemma unquote_units_plain s :
  chr "%" ∉ s → unquote_units s = unit_of_char <$> s.
Proof.
  induction s as [|c s IH]; [done|]. intros [Hc Hs]%not_elem_of_cons.
  rewrite unquote_units_other, IH; [done..|]. by apply N.eqb_neq.
Qed.

Lemma utf8_replace_plain s : utf8_replace (unit_of_char <$> s) = s.
Proof.
  induction s as [|c s IH]; [done|]. rewrite fmap_cons. unfold unit_of_char at 1.
  destruct (c <? 128) eqn:Hc.
  - rewrite utf8_replace_byte. change 0x80 with 128. by rewrite Hc, IH.
  - cbn [utf8_replace]. by rewrite IH.
Qed.

Lemma utf8_replace_ascii T :
  Forall (λ c, (c <? 128) = true) T → utf8_replace (Byte <$> T) = T.
Proof.
  induction 1 as [|c T Hc _ IH]; [done|].
  rewrite fmap_cons, utf8_replace_byte. change 0x80 with 128. by rewrite Hc, IH.
Qed.

(** The shortcut of [unquote] for a text without [%] changes nothing. *)
Lemma unquote_eq s : unquote s = utf8_replace (unquote_units s).
Proof.
  unfold unquote. case_bool_decide as Hs; [done|].
  by rewrite unquote_units_plain, utf8_replace_plain.
Qed.

Lemma utf8_decode_byte errors b0 t :
  utf8_decode errors (Byte b0 :: t) =

  if b0 <? 0x80 then cons b0 <$> utf8_decode errors t
  else if in_range 0xC2 0xDF b0 then
    match t with
    | Byte b1 :: t1 =>
        if is_cont b1 then cons ((b0 - 0xC0) * 64 + cont_bits b1) <$> utf8_decode errors t1
        else on_invalid errors (utf8_decode errors t)
    | _ => on_invalid errors (utf8_decode errors t)
    end
  else if in_range 0xE0 0xEF b0 then
    match t with
    | Byte b1 :: t1 =>
        if second_ok b0 b1 then
          match t1 with
          | Byte b2 :: t2 =>
              if is_cont b2 then
                cons ((b0 - 0xE0) * 4096 + cont_bits b1 * 64 + cont_bits b2) <$> utf8_decode errors t2
              else on_invalid errors (utf8_decode errors t1)
          | _ => on_invalid errors (utf8_decode errors t1)
          end
        else on_invalid errors (utf8_decode errors t)
    | _ => on_invalid errors (utf8_decode errors t)
    end
  else if in_range 0xF0 0xF4 b0 then
    match t with
    | Byte b1 :: t1 =>
        if second_ok b0 b1 then
          match t1 with
          | Byte b2 :: t2 =>
              if is_cont b2 then
                match t2 with
                | Byte b3 :: t3 =>
                    if is_cont b3 then
                      cons ((b0 - 0xF0) * 262144 + cont_bits b1 * 4096
                       + cont_bits b2 * 64 + cont_bits b3) <$> utf8_decode errors t3
                    else on_invalid errors (utf8_decode errors t2)
                | _ => on_invalid errors (utf8_decode errors t2)
                end
              else on_invalid errors (utf8_decode errors t1)
          | _ => on_invalid errors (utf8_decode errors t1)
          end
        else on_invalid errors (utf8_decode errors t)
    | _ => on_invalid errors (utf8_decode errors t)
    end
  else on_invalid errors (utf8_decode errors t).
Proof. done. Qed.

(** Under [replace] the codec never raises: it gives what [utf8_replace]
    gives. *)
Lemma utf8_decode_replace l : utf8_decode Replace l = Some (utf8_replace l).
Proof.
  remember (length l) as n eqn:Hn. revert l Hn.
  induction n as [n IH] using lt_wf_ind. intros l ->.
  assert (∀ X, (length X < length l)%nat → utf8_decode Replace X = Some (utf8_replace X))
    as IH' by (intros X HX; by apply (IH (length X))).
  clear IH. destruct l as [|[b0|c] t]; [done| |].
  - rewrite utf8_decode_byte, utf8_replace_byte.
    repeat case_match; simplify_eq; unfold on_invalid;
      rewrite IH' by (cbn [length]; lia); done.
  - cbn [utf8_decode utf8_replace]. by rewrite IH' by (cbn [length]; lia).
Qed.

Lemma call_unquote_plus_eq s : call_unquote_plus s = Some (unquote_plus s).
Proof.
  unfold call_unquote_plus, unquote_with, unquote_plus, unquote.
  case_bool_decide; [apply utf8_decode_replace|done].
Qed.

Lemma decoded_content_eq content : decoded_content content = unquote_plus content.
Proof. unfold decoded_content. by rewrite call_unquote_plus_eq. Qed.

Lemma pending_escape_ascii T :
  pending_escape T → Forall (λ c, (c <? 128) = true) T ∧ decode_tail T ∧
                     starts_ascii (Byte <$> T).
Proof.
  destruct 1 as [| |h Hh].
  - split_and!; [done|constructor|by left].
  - split_and!; [by repeat constructor|constructor|right; by eexists _, _].
  - split_and!; [|by constructor|right; by eexists _, _].
    apply is_hex_ascii in Hh as [Hh _]. by repeat constructor.
Qed.

(** The decoded text splits into a part that stays whatever is added to the
    text, and an end of the kind above. *)
Lemma decoded_content_app C :
  ∃ D Y, decode_tail Y ∧ decoded_content C = D ++ Y ∧
         ∀ P, ∃ X, decoded_content (C ++ P) = D ++ X.
Proof.
  setoid_rewrite decoded_content_eq. unfold unquote_plus.
  destruct (unquote_units_app (replace_plus C)) as (U & T & HT & HU).
  destruct (utf8_replace_app U) as (D & F & HF & HD).
  destruct (pending_escape_ascii _ HT) as (Hascii & Htail & Hstart).
  exists D, (utf8_replace (F ++ (Byte <$> T))). split_and!.
  - destruct HF as [->|HF].
    + cbn [app]. by rewrite utf8_replace_ascii.
    + rewrite HF, utf8_replace_ascii by done. by constructor.
  - rewrite unquote_eq, <-(app_nil_r (replace_plus C)), HU, HD, app_nil_r.
    by rewrite unquote_units_pending.
  - intros P. eexists. unfold replace_plus. rewrite fmap_app.
    fold (replace_plus C). by rewrite unquote_eq, HU, HD.
Qed.

(** ** What a signature matches *)

Section RegexFacts.

Variable unicode_isalnum : N → bool.

Local Abbreviation atom_match := (atom_match unicode_isalnum).
Local Abbreviation match_here := (match_here unicode_isalnum).
Local Abbreviation findall := (findall unicode_isalnum).
Local Abbreviation findall_from := (findall_from unicode_isalnum).

(** The words of a signature: a run of accepted characters per item, of
    the length its repetition allows. *)
Fixpoint lang (r : regex) (w : pystr) : Prop :=
  match r with
  | [] => w = []
  | (a, q) :: r' =>
      ∃ u v, w = u ++ v ∧ Forall (λ c, atom_match a c = true) u ∧ lang r' v ∧
             match q with
             | One => length u = 1%nat
             | Plus => (1 ≤ length u)%nat
             | Star | StarLazy => True
             end
  end.

Section Continuation.

Variables (m : N → bool) (k : pystr → option nat).

Lemma one_char_Some s n :
  one_char m k s = Some n →
  ∃ c s' n', s = c :: s' ∧ m c = true ∧ k s' = Some n' ∧ n = S n'.
Proof.
  destruct s as [|c s']; simpl; [done|].
  destruct (m c) eqn:Hc; [|done].
  destruct (k s') as [n'|] eqn:Hk; simpl; [|done].
  intros [= <-]. eauto 8.
Qed.

Lemma star_greedy_Some s n :
  star_greedy m k s = Some n →
  ∃ u v n', s = u ++ v ∧ Forall (λ c, m c = true) u ∧ k v = Some n' ∧
            n = (length u + n')%nat.
Proof.
  revert n. induction s as [|c s' IH]; intros n; simpl.
  - intros Hk. exists [], [], n. by repeat split.
  - destruct (m c) eqn:Hc.
    + destruct (star_greedy m k s') as [n1|] eqn:Hs.
      * intros [= <-]. destruct (IH _ eq_refl) as (u & v & n' & -> & Hu & Hk & ->).
        exists (c :: u), v, n'. repeat split; auto.
      * intros Hk. exists [], (c :: s'), n. by repeat split.
    + intros Hk. exists [], (c :: s'), n. by repeat split.
Qed.

Lemma star_lazy_Some s n :
  star_lazy m k s = Some n →
  ∃ u v n', s = u ++ v ∧ Forall (λ c, m c = true) u ∧ k v = Some n' ∧
            n = (length u + n')%nat.
Proof.
  revert n. induction s as [|c s' IH]; intros n; simpl.
  - destruct (k []) eqn:Hk; [|done]. intros [= <-].
    exists [], [], n0. by repeat split.
  - destruct (k (c :: s')) as [n0|] eqn:Hk.
    + intros [= <-]. exists [], (c :: s'), n0. by repeat split.
    + destruct (m c) eqn:Hc; [|done].
      destruct (star_lazy m k s') as [n1|] eqn:Hs; simpl; [|done].
      intros [= <-]. destruct (IH _ eq_refl) as (u & v & n' & -> & Hu & Hk' & ->).
      exists (c :: u), v, n'. repeat split; auto.
Qed.

Lemma star_greedy_is_Some u v :
  Forall (λ c, m c = true) u → is_Some (k v) → is_Some (star_greedy m k (u ++ v)).
Proof.
  intros Hu Hk. induction Hu as [|c u Hc Hu IH]; simpl.
  - destruct v as [|c v]; simpl; [done|].
    destruct (m c); [|done]. by destruct (star_greedy m k v).
  - rewrite Hc. destruct IH as [n ->]. eauto.
Qed.

Lemma star_lazy_is_Some u v :
  Forall (λ c, m c = true) u → is_Some (k v) → is_Some (star_lazy m k (u ++ v)).
Proof.
  intros Hu Hk. induction Hu as [|c u Hc Hu IH]; simpl.
  - destruct Hk as [n Hn]. destruct v; simpl; rewrite Hn; eauto.
  - destruct (k (c :: u ++ v)); [eauto|].
    rewrite Hc. destruct IH as [n ->]. simpl. eauto.
Qed.

End Continuation.

(** A match the search returns is a word of the signature, at the start
    of the text. *)
Lemma match_here_sound r s n :
  match_here r s = Some n → ∃ w rest, s = w ++ rest ∧ length w = n ∧ lang r w.
Proof.
  revert s n. induction r as [|[a q] r IH]; intros s n; simpl.
  - intros [= <-]. by exists [], s.
  - destruct q.
    + intros (c & s' & n' & -> & Hc & Hk & ->)%one_char_Some.
      destruct (IH _ _ Hk) as (w & rest & -> & <- & Hw).
      exists (c :: w), rest. split_and!; [done..|].
      exists [c], w. split_and!; auto.
    + intros (u & v & n' & -> & Hu & Hk & ->)%star_greedy_Some.
      destruct (IH _ _ Hk) as (w & rest & -> & <- & Hw).
      exists (u ++ w), rest. rewrite length_app, (assoc_L (++)). split_and!; [done..|].
      exists u, w. by split_and!.
    + intros (u & v & n' & -> & Hu & Hk & ->)%star_lazy_Some.
      destruct (IH _ _ Hk) as (w & rest & -> & <- & Hw).
      exists (u ++ w), rest. rewrite length_app, (assoc_L (++)). split_and!; [done..|].
      exists u, w. by split_and!.
    + intros (c & s' & n' & -> & Hc & Hk & ->)%one_char_Some.
      apply star_greedy_Some in Hk as (u & v & n'' & -> & Hu & Hk & ->).
      destruct (IH _ _ Hk) as (w & rest & -> & <- & Hw).
      exists (c :: u ++ w), rest. simpl. rewrite length_app, (assoc_L (++)).
      split_and!; [done..|]. exists (c :: u), w. split_and!; auto. simpl; lia.
Qed.

(** Where a word of the signature starts the text, the search finds a
    match. *)
Lemma match_here_complete r w rest :
  lang r w → is_Some (match_here r (w ++ rest)).
Proof.
  revert w. induction r as [|[a q] r IH]; intros w; simpl.
  - intros ->. eauto.
  - intros (u & v & -> & Hu & Hv & Hq). rewrite <-(assoc_L (++)).
    specialize (IH _ Hv). destruct q.
    + destruct u as [|c [|??]]; simplify_eq/=. apply Forall_cons in Hu as [-> _].
      destruct IH as [n ->]. simpl. eauto.
    + by apply star_greedy_is_Some.
    + by apply star_lazy_is_Some.
    + destruct u as [|c u]; simpl in *; [lia|]. apply Forall_cons in Hu as [-> Hu].
      destruct (star_greedy_is_Some (atom_match a) (match_here r) u (v ++ rest))
        as [n ->]; [done..|]. simpl. eauto.
Qed.

(** The signature matches somewhere in the text. *)
Definition found (r : regex) (s : pystr) : Prop :=
  ∃ a w b, s = a ++ w ++ b ∧ lang r w ∧ (length a < length s)%nat.

Lemma findall_from_nonempty r skip s :
  findall_from r skip s ≠ [] ↔
  ∃ i, (skip ≤ i < length s)%nat ∧ is_Some (match_here r (drop i s)).
Proof.
  revert skip. induction s as [|c s IH]; intros skip; simpl.
  - split; [done|]. intros (i & ? & _). lia.
  - destruct skip as [|k].
    + destruct (match_here r (c :: s)) as [n|] eqn:Hm.
      * split; [|done]. intros _. exists 0%nat. rewrite drop_0, Hm. split; [lia|eauto].
      * rewrite IH. split.
        -- intros (i & ? & Hi). exists (S i). split; [lia|done].
        -- intros ([|i] & ? & Hi).
           ++ rewrite drop_0, Hm in Hi. by destruct Hi.
           ++ exists i. split; [lia|done].
    + rewrite IH. split.
      * intros (i & ? & Hi). exists (S i). split; [lia|done].
      * intros ([|i] & ? & Hi); [lia|]. exists i. split; [lia|done].
Qed.

Lemma findall_found r s : findall r s ≠ [] ↔ found r s.
Proof.
  unfold findall. rewrite findall_from_nonempty. split.
  - intros (i & Hi & [n Hn]).
    apply match_here_sound in Hn as (w & rest & Hs & _ & Hw).
    exists (take i s), w, rest. rewrite <-Hs, take_drop, length_take.
    split_and!; [done..|lia].
  - intros (a & w & b & -> & Hw & Ha). exists (length a).
    rewrite drop_app_length. split; [lia|]. by apply match_here_complete.
Qed.

(** Text added after a match leaves the match in place. *)
Lemma found_app_r r s t : found r s → found r (s ++ t).
Proof.
  intros (a & w & b & -> & Hw & Ha). exists a, w, (b ++ t).
  rewrite <-!(assoc_L (++)). split_and!; [done..|].
  rewrite !length_app in *. lia.
Qed.

Lemma lang_consumes r w : consumes r = true → lang r w → w ≠ [].
Proof.
  revert w. induction r as [|[a q] r IH]; intros w; simpl; [done|].
  intros Hc (u & v & -> & _ & Hv & Hq).
  destruct q; simpl in Hc.
  - destruct u; simpl in *; [lia|done].
  - intros [-> ->]%app_eq_nil. by eapply IH.
  - intros [-> ->]%app_eq_nil. by eapply IH.
  - destruct u; simpl in *; [lia|done].
Qed.

(** The last character of a word is one the last item accepts, when that
    item is a single literal. *)
Lemma lang_last r c w :
  lang (r ++ [(Lit c, One)]) w →
  ∃ w0 x, w = w0 ++ [x] ∧ lit_match c x = true ∧ lang r w0.
Proof.
  revert w. induction r as [|[a q] r IH]; intros w; simpl.
  - intros (u & v & -> & Hu & -> & Hq).
    destruct u as [|x [|??]]; simplify_eq/=. apply Forall_cons in Hu as [Hx _].
    by exists [], x.
  - intros (u & v & -> & Hu & Hv & Hq).
    destruct (IH _ Hv) as (w0 & x & -> & Hx & Hw0).
    exists (u ++ w0), x. rewrite (assoc_L (++)). split_and!; [done..|].
    exists u, w0. by split_and!.
Qed.

Lemma found_tail r D Y X :
  tail_safe r = true → decode_tail Y → found r (D ++ Y) → found r (D ++ X).
Proof.
  unfold tail_safe. intros Hsafe HY (a & w & b & Heq & Hw & Ha).
  destruct (reverse r) as [|[[c2| | | |] []] before] eqn:Hr; try done.
  apply (f_equal reverse) in Hr. rewrite reverse_involutive, reverse_cons in Hr.
  subst r. destruct (lang_last _ _ _ Hw) as (w0 & x & -> & Hx & Hw0).
  rewrite !andb_true_iff, !negb_true_iff in Hsafe.
  destruct Hsafe as [[Hrep Hpct] Hhex].
  assert (∀ k, a ++ w0 = D ++ k → Y = k ++ x :: b → False) as inside.
  { intros k Hk HYk.
    destruct (decode_tail_inv _ _ _ _ HY HYk) as [->|[->|[Hh [k' ->]]]]; [congruence..|].
    apply is_hex_digits in Hh.
    assert (existsb (lit_match c2) hex_digits = true) as Hex.
    { apply existsb_exists. exists x. by rewrite <-list_elem_of_In. }
    rewrite Hex in Hhex. cbn [negb orb] in Hhex.
    destruct before as [|[[c1| | | |] []] before]; try done.
    rewrite reverse_cons in Hw0.
    apply lang_last in Hw0 as (w1 & x1 & -> & Hx1 & _).
    rewrite negb_true_iff in Hhex.
    rewrite !(assoc_L (++)) in Hk. apply app_inj_tail in Hk as [_ ->]. congruence. }
  rewrite <-(assoc_L (++) w0), (assoc_L (++) a) in Heq.
  apply app_eq_inv in Heq as [(k & HD & Hk)|(k & Hk & HYk)]; [|exfalso; eauto].
  destruct k as [|x' k]; simpl in Hk.
  - exfalso. apply (inside []); [by rewrite app_nil_r in *|done].
  - injection Hk as <- ->. subst D. exists a, (w0 ++ [x]), (k ++ X). split_and!; [|done|].
    + by rewrite <-!(assoc_L (++)).
    + rewrite !length_app. simpl. lia.
Qed.

(** *** A letter of a signature is a word character *)

Lemma lit_match_word l c :
  is_ascii_letter l = true → lit_match l c = true → is_word unicode_isalnum c = true.
Proof.
  unfold lit_match, is_word. intros Hl. rewrite Hl, orb_true_iff. intros [Hc|Hc].
  - apply N.eqb_eq in Hc.
    assert (97 ≤ ascii_lower c ≤ 122) as Hrange.
    { rewrite Hc. unfold ascii_lower, is_ascii_letter, is_ascii_upper, is_ascii_lower in *.
      destruct (in_range 65 90 l) eqn:Hu.
      - apply in_range_spec in Hu. lia.
      - simpl in Hl. apply in_range_spec in Hl. lia. }
    unfold ascii_lower, is_ascii_upper in Hrange.
    destruct (in_range 65 90 c) eqn:Hu.
    + pose proof (proj1 (in_range_spec _ _ _) Hu) as Hu'.
      rewrite (proj2 (N.ltb_lt c 128)) by lia.
      unfold is_ascii_alnum, is_ascii_letter, is_ascii_upper. by rewrite Hu.
    + rewrite (proj2 (N.ltb_lt c 128)) by lia.
      unfold is_ascii_alnum, is_ascii_letter, is_ascii_lower.
      rewrite (proj2 (in_range_spec 97 122 c)) by done. by rewrite orb_true_r.
  - assert (c ∈ [0x130; 0x131; 0x17F; 0x212A]) as Hin.
    { unfold fold_extra in Hc.
      repeat first [ apply orb_prop in Hc as [Hc|Hc] | apply andb_prop in Hc as [_ Hc] ];
        apply N.eqb_eq in Hc as ->; set_solver. }
    rewrite bool_decide_eq_true_2 by done.
    destruct (c <? 128) eqn:Hlt; [|done]. apply N.ltb_lt in Hlt.
    exfalso. set_unfold in Hin. lia.
Qed.

Definition letter_item (it : atom * quant) : bool :=
  match it with
  | (Lit l, One) => is_ascii_letter l
  | _ => false
  end.

Lemma lang_letters lits tail w :
  forallb letter_item lits = true → lang (lits ++ tail) w →
  ∃ u v, w = u ++ v ∧ Forall (λ c, is_word unicode_isalnum c = true) u ∧
         length u = length lits ∧ lang tail v.
Proof.
  revert w. induction lits as [|[a q] lits IH]; intros w; simpl.
  { intros _ Hw. by exists [], w. }
  intros [Hit Hlits]%andb_prop (u & v & -> & Hu & Hv & Hq).
  destruct a as [l| | | |], q; try done. simpl in Hit.
  destruct (IH _ Hlits Hv) as (u' & v' & -> & Hu' & Hlen & Hv').
  exists (u ++ u'), v'. rewrite length_app, Hq, Hlen, (assoc_L (++)).
  split_and!; [done| |done..].
  apply Forall_app. split; [|done].
  eapply Forall_impl; [exact Hu|]. intros c Hc. by eapply lit_match_word.
Qed.

(** Whatever [onmouseover\s*=] matches, [on\w+\s*=] matches. *)
Lemma found_onmouseover r7 r3 s :
  compiled_patterns !! 7%nat = Some r7 → compiled_patterns !! 3%nat = Some r3 →
  found r7 s → found r3 s.
Proof.
  intros [= <-] [= <-] (a & w & b & -> & Hw & Ha). exists a, w, b.
  split_and!; [done| |done].
  destruct Hw as (u1 & v1 & -> & Hu1 & Hw & Hq1).
  destruct Hw as (u2 & v2 & -> & Hu2 & Hw & Hq2).
  exists u1, (u2 ++ v2). split_and!; [done..| |done].
  exists u2, v2. split_and!; [done..| |done].
  change (lang (((λ c, (Lit (chr c), One)) <$> list_ascii_of_string "mouseover")
                ++ [(Space, Star); (Lit (chr "="), One)]) v2) in Hw.
  apply lang_letters in Hw as (u & v & -> & Hu & Hlen & Hv); [|done].
  destruct Hv as (u3 & v3 & -> & Hu3 & Hv & Hq3).
  exists u, (u3 ++ v3). split_and!; [done..| |simpl in Hlen; lia].
  by exists u3, v3.
Qed.

End RegexFacts.


(** ** The scan and the verdict *)

Lemma compiled_patterns_ok : mapM re_compile xss_patterns = Some compiled_patterns.
Proof. by vm_compute. Qed.

Lemma compiled_patterns_tail_safe :
  Forall (λ r, tail_safe r = true) compiled_patterns.
Proof. apply (bool_decide_unpack _). by vm_compute. Qed.

Lemma risk_level_mono (ps qs : list detected_pattern) :
  (∀ j, j ∈ pattern_id <$> ps → j ∈ pattern_id <$> qs) →
  (risk_rank (_calculate_risk_level ps) ≤ risk_rank (_calculate_risk_level qs))%nat.
Proof.
  intros Hsub. unfold _calculate_risk_level.
  assert (∀ f, existsb f (pattern_id <$> ps) = true → existsb f (pattern_id <$> qs) = true)
    as Hex.
  { intros f (j & Hj & Hf)%existsb_exists. apply existsb_exists. exists j.
    split; [|done]. apply list_elem_of_In, Hsub. by apply list_elem_of_In. }
  repeat case_match; simpl; try lia;
    repeat match goal with
           | H : existsb ?f (pattern_id <$> ps) = true |- _ => apply Hex in H
           end; congruence.
Qed.

Section DetectorFacts.

Variable isalnum : N → bool.


(** The signatures the scan isalnum reports are those that match. *)
Lemma scan_from_ids i compiled decoded j :
  j ∈ pattern_id <$> scan_from isalnum i compiled decoded ↔
  ∃ k r, j = (i + k)%nat ∧ compiled !! k = Some r ∧ findall isalnum r decoded ≠ [].
Proof.
  revert i. induction compiled as [|r0 rest IH]; intros i; cbn [scan_from].
  - split; [by intros ?%elem_of_nil|]. by intros (k & r & _ & ? & _).
  - assert (j ∈ pattern_id <$> scan_from isalnum (S i) rest decoded ↔
            ∃ k r, j = (i + S k)%nat ∧ rest !! k = Some r ∧ findall isalnum r decoded ≠ []) as IH'.
    { rewrite IH. by setoid_rewrite Nat.add_succ_r. }
    destruct (findall isalnum r0 decoded) as [|m ms] eqn:Hf.
    + rewrite IH'. split.
      * intros (k & r & -> & Hk & Hr). by exists (S k), r.
      * intros ([|k] & r & -> & Hk & Hr); simplify_eq/=; try congruence. by exists k, r.
    + rewrite fmap_cons, elem_of_cons, IH'. cbn [pattern_id]. split.
      * intros [->|(k & r & -> & Hk & Hr)].
        -- exists 0%nat, r0. rewrite Nat.add_0_r, Hf. by split_and!.
        -- by exists (S k), r.
      * intros ([|k] & r & -> & Hk & Hr); simplify_eq/=.
        -- left. lia.
        -- right. by exists k, r.
Qed.

Lemma scan_ids decoded j :
  j ∈ pattern_id <$> scan isalnum decoded ↔
  ∃ r, compiled_patterns !! j = Some r ∧ findall isalnum r decoded ≠ [].
Proof.
  unfold scan. rewrite scan_from_ids. split.
  - intros (k & r & -> & ? & ?). by exists r.
  - intros (r & ? & ?). by exists j, r.
Qed.

(** The patterns a call reports, as a function of the content alone. *)
Definition reported (content : pystr) : list detected_pattern :=
  match content with
  | [] => []
  | _ => scan isalnum (decoded_content content)
  end.

Lemma detect_xss_patterns st content source_ip url now :
  patterns (detect_xss isalnum st content source_ip url now).2 = reported content.
Proof.
  unfold detect_xss, reported. destruct content as [|c content]; [done|].
  case_bool_decide as Hlen; [done|].
  destruct (scan isalnum _); [done|simpl in Hlen; lia].
Qed.

Lemma detect_xss_detected st content source_ip url now :
  detected (detect_xss isalnum st content source_ip url now).2
  = bool_decide (reported content ≠ []).
Proof.
  unfold detect_xss, reported. destruct content as [|c content]; [done|].
  destruct (scan isalnum _) eqn:Hs; [done|].
  rewrite bool_decide_eq_true_2 by (simpl; lia). by rewrite bool_decide_eq_true_2.
Qed.

Lemma detect_xss_risk_level st content source_ip url now :
  risk_level (detect_xss isalnum st content source_ip url now).2
  = _calculate_risk_level (reported content).
Proof.
  unfold detect_xss, reported. destruct content as [|c content]; [done|].
  case_bool_decide as Hlen; [done|].
  destruct (scan isalnum _); [done|simpl in Hlen; lia].
Qed.

(** Every signature that matches a text matches the text with more after
    it. *)
Lemma reported_app content payload j :
  j ∈ pattern_id <$> reported content → j ∈ pattern_id <$> reported (content ++ payload).
Proof.
  unfold reported. destruct content as [|c content]; [by intros ?%elem_of_nil|].
  cbn [app]. rewrite !scan_ids. intros (r & Hr & Hf). exists r. split; [done|].
  apply findall_found. apply findall_found in Hf.
  destruct (decoded_content_app (c :: content)) as (D & Y & HY & HD & HX).
  destruct (HX payload) as [X HX']. cbn [app] in HX'. rewrite HX'. rewrite HD in Hf.
  eapply found_tail; [|done..].
  pose proof compiled_patterns_tail_safe as Hsafe. rewrite Forall_forall in Hsafe.
  apply Hsafe. by eapply list_elem_of_lookup_2.
Qed.

End DetectorFacts.

(** * The claims *)

#[global] Arguments scan : simpl never.
#[global] Arguments decoded_content : simpl never.

Section Claims.

Variable isalnum : N → bool.


Lemma reported_eq content : reported isalnum content = scan isalnum (decoded_content content).
Proof. by destruct content. Qed.

Lemma detect_xss_clean st content source_ip url now :
  scan isalnum (decoded_content content) = [] →
  detect_xss isalnum st content source_ip url now = (st, not_detected).
Proof.
  intros Hs. unfold detect_xss. destruct content; [done|]. by rewrite Hs.
Qed.

(** C1, as the code has it: only the empty content is returned without a
    scan isalnum (not detected, no pattern, risk low, the state untouched).  There is
    no minimum length: every content of one character or more is decoded
    and scanned, and is detected exactly when a signature matches. *)
Theorem C1_only_empty_content_skips_scan st source_ip url now :
  detect_xss isalnum st [] source_ip url now = (st, not_detected) ∧
  ∀ c content,
    detected (detect_xss isalnum st (c :: content) source_ip url now).2 = true ↔
    ∃ i r, compiled_patterns !! i = Some r ∧
           findall isalnum r (decoded_content (c :: content)) ≠ [].
Proof.
  split; [done|]. intros c content.
  rewrite detect_xss_detected, bool_decide_eq_true, reported_eq. split.
  - intros Hne. destruct (scan isalnum _) as [|p ps] eqn:Hs; [done|].
    assert (pattern_id p ∈ pattern_id <$> scan isalnum (decoded_content (c :: content))) as Hin.
    { rewrite Hs, fmap_cons. apply elem_of_cons. by left. }
    apply scan_ids in Hin as (r & ? & ?). by exists (pattern_id p), r.
  - intros (i & r & Hi & Hf) Hs.
    assert (i ∈ pattern_id <$> scan isalnum (decoded_content (c :: content))) as Hin.
    { apply scan_ids. by exists r. }
    rewrite Hs in Hin. by apply elem_of_nil in Hin.
Qed.

(** C6: a high-risk payload added after a content never lowers the risk
    tier of the content. *)
Theorem C6_risk_monotone_under_high_payload
    st st' st'' content payload ip url now ip' url' now' ip'' url'' now'' :
  risk_level (detect_xss isalnum st payload ip url now).2 = High →
  (risk_rank (risk_level (detect_xss isalnum st' content ip' url' now').2)
   ≤ risk_rank (risk_level
                  (detect_xss isalnum st'' (content ++ payload) ip'' url'' now'').2))%nat.
Proof.
  intros _. rewrite !detect_xss_risk_level.
  apply risk_level_mono. intros j. apply reported_app.
Qed.

(** C7: a call that detects adds one to [detection_count] and one record,
    the one it returns, at the end of the attack log (and hands one warning
    to the logger); a call that does not detect leaves the state as it
    was. *)
Theorem C7_state_changes_on_detection_only st content source_ip url now :
  let '(st', r) := detect_xss isalnum st content source_ip url now in
  if detected r then
    detection_count st' = (detection_count st + 1)%nat ∧
    ∃ info, res_attack_info r = Some info ∧
            attack_log st' = attack_log st ++ [info] ∧
            emitted st' = emitted st ++ [(WARNING, attack_message info)]
  else st' = st.
Proof.
  unfold detect_xss. destruct content as [|c content]; [done|].
  case_bool_decide; [|done].
  cbn [detected detection_count attack_log emitted _log_attack res_attack_info].
  split; [done|]. eauto.
Qed.

(** C9: the patterns and the risk level of a call depend on no state: two
    calls with the same arguments, from any two states and at any two
    times, report the same. *)
Theorem C9_verdict_deterministic st1 st2 content source_ip url now1 now2 :
  patterns (detect_xss isalnum st1 content source_ip url now1).2
  = patterns (detect_xss isalnum st2 content source_ip url now2).2 ∧
  risk_level (detect_xss isalnum st1 content source_ip url now1).2
  = risk_level (detect_xss isalnum st2 content source_ip url now2).2.
Proof. by rewrite !detect_xss_patterns, !detect_xss_risk_level. Qed.

(** C10: [detected], [patterns] and [risk_level] depend on the content
    alone; the source address and the URL only reach the record of the
    attack, where they are stored as given. *)
Theorem C10_verdict_depends_on_content_only
    st content source_ip1 url1 source_ip2 url2 now :
  let r1 := (detect_xss isalnum st content source_ip1 url1 now).2 in
  let r2 := (detect_xss isalnum st content source_ip2 url2 now).2 in
  detected r1 = detected r2 ∧ patterns r1 = patterns r2 ∧
  risk_level r1 = risk_level r2 ∧
  match res_attack_info r1, res_attack_info r2 with
  | Some a1, Some a2 =>
      source_ip a1 = source_ip1 ∧ url a1 = url1 ∧
      source_ip a2 = source_ip2 ∧ url a2 = url2 ∧
      detected_patterns a1 = detected_patterns a2 ∧
      ai_risk_level a1 = ai_risk_level a2 ∧
      content_sample a1 = content_sample a2
  | None, None => True
  | _, _ => False
  end.
Proof.
  cbn zeta. rewrite !detect_xss_detected, !detect_xss_patterns, !detect_xss_risk_level.
  split_and!; [done..|].
  unfold detect_xss. destruct content as [|c content]; [done|].
  case_bool_decide as Hl; [|done].
  cbn [snd res_attack_info source_ip url detected_patterns ai_risk_level content_sample].
  split_and!; reflexivity.
Qed.

Lemma detect_xss_log st content source_ip url now :
  let st' := (detect_xss isalnum st content source_ip url now).1 in
  ∃ new, attack_log st' = attack_log st ++ new ∧
         detection_count st' = (detection_count st + length new)%nat.
Proof.
  unfold detect_xss. destruct content as [|c content].
  { exists []. by rewrite app_nil_r, Nat.add_0_r. }
  case_bool_decide.
  - eexists [_]. cbn [fst attack_log detection_count _log_attack length]. done.
  - exists []. cbn [fst]. by rewrite app_nil_r, Nat.add_0_r.
Qed.

Lemma run_detects_cons st content source_ip url now calls :
  run_detects isalnum st ((content, source_ip, url, now) :: calls)
  = run_detects isalnum (detect_xss isalnum st content source_ip url now).1 calls.
Proof. done. Qed.

Lemma run_detects_log st calls :
  let st' := run_detects isalnum st calls in
  ∃ new, attack_log st' = attack_log st ++ new ∧
         detection_count st' = (detection_count st + length new)%nat.
Proof.
  revert st. induction calls as [|[[[content source_ip] url] now] calls IH]; intros st.
  { exists []. by rewrite app_nil_r, Nat.add_0_r. }
  rewrite run_detects_cons.
  destruct (detect_xss_log st content source_ip url now) as (new1 & Hl1 & Hc1).
  destruct (IH (detect_xss isalnum st content source_ip url now).1) as (new2 & Hl2 & Hc2).
  exists (new1 ++ new2). cbn zeta in *.
  rewrite Hl2, Hl1, Hc2, Hc1, length_app, (assoc_L (++)). split; [done|lia].
Qed.

(** C4, as the code has it: the attack log itself is never cut.  After any
    sequence of calls it still starts with what it held before and has
    grown by one record per detection; only the [recent_attacks] of
    [get_statistics] are bounded: they are the last ten records of the log,
    ten at most. *)
Theorem C4_log_unbounded_recent_bounded st calls :
  let st' := run_detects isalnum st calls in
  attack_log st `prefix_of` attack_log st' ∧
  length (attack_log st')
  = (length (attack_log st) + (detection_count st' - detection_count st))%nat ∧
  recent_attacks (get_statistics st')
  = drop (length (attack_log st') - 10) (attack_log st') ∧
  length (recent_attacks (get_statistics st'))
  = (length (attack_log st') `min` 10)%nat.
Proof.
  cbn zeta. destruct (run_detects_log st calls) as (new & Hl & Hc). cbn zeta in *.
  split_and!.
  - rewrite Hl. by apply prefix_app_r.
  - rewrite Hl, Hc, length_app. lia.
  - done.
  - cbn [get_statistics recent_attacks]. unfold last_n. rewrite length_drop. lia.
Qed.

Lemma inspect_clean clock source_ip url st k results content loc :
  scan isalnum (decoded_content content) = [] →
  inspect isalnum clock source_ip url (st, k, results) content loc = (st, S k, results).
Proof. intros Hs. unfold inspect. by rewrite detect_xss_clean. Qed.

Lemma inspect_headers_clean clock source_ip url st k results headers :
  (∀ name value, (name, value) ∈ headers → is_inspected name = true →
                 scan isalnum (decoded_content value) = []) →
  ∃ k', inspect_headers isalnum clock source_ip url (st, k, results) headers
        = (st, k', results).
Proof.
  revert k. induction headers as [|[name value] headers IH]; intros k Hclean.
  { by exists k. }
  cbn [inspect_headers]. destruct (is_inspected name) eqn:Hname.
  - rewrite inspect_clean.
    + apply IH. intros n v Hin. apply Hclean. by apply elem_of_cons; right.
    + apply (Hclean name); [|done]. by apply elem_of_cons; left.
  - apply IH. intros n v Hin. apply Hclean. by apply elem_of_cons; right.
Qed.

(** C5: a request whose URL and inspected headers match no signature and
    whose body, not empty, matches one, gets a verdict with [detected] true,
    one result, tagged [Body], and [total_detections] one. *)
Theorem C5_payload_in_body_only st clock method url headers body source_ip :
  scan isalnum (decoded_content url) = [] →
  (∀ name value, (name, value) ∈ headers → is_inspected name = true →
                 scan isalnum (decoded_content value) = []) →
  body ≠ [] →
  scan isalnum (decoded_content body) ≠ [] →
  let v := (analyze_http_request isalnum st clock method url headers body source_ip).2 in
  v_detected v = true ∧ total_detections v = 1%nat ∧
  ∃ r, results v = [r] ∧ location r = Some (py "Body") ∧ detected r = true.
Proof.
  intros Hurl Hheaders Hbody Hscan. unfold analyze_http_request.
  rewrite inspect_clean by done.
  destruct (inspect_headers_clean clock source_ip url st 1 [] headers Hheaders)
    as [k ->].
  destruct body as [|c body]; [done|]. unfold inspect.
  pose proof (detect_xss_detected isalnum st (c :: body) source_ip url (clock k)) as Hd.
  rewrite reported_eq, bool_decide_eq_true_2 in Hd by done.
  destruct (detect_xss isalnum st (c :: body) source_ip url (clock k)) as [st' r].
  cbn [snd] in Hd. rewrite Hd. cbn [snd v_detected total_detections results app length].
  split_and!; [done..|]. by eexists.
Qed.

Ltac elem_cases H :=
  repeat (apply elem_of_cons in H as [->|H]); [..|by apply elem_of_nil in H].

Lemma risk_level_high (ps : list detected_pattern) j :
  j ∈ pattern_id <$> ps → j ∈ high_risk_patterns → _calculate_risk_level ps = High.
Proof.
  intros Hj Hhigh. unfold _calculate_risk_level.
  rewrite (proj2 (existsb_exists _ _)); [done|].
  exists j. split; [by apply list_elem_of_In|by apply bool_decide_eq_true_2].
Qed.

Lemma risk_level_medium (ps : list detected_pattern) j :
  j ∈ pattern_id <$> ps → j ∈ medium_risk_patterns →
  (∀ i, i ∈ pattern_id <$> ps → i ∉ high_risk_patterns) →
  _calculate_risk_level ps = Medium.
Proof.
  intros Hj Hmedium Hnone. unfold _calculate_risk_level.
  destruct (existsb _ _) eqn:Hex.
  - apply existsb_exists in Hex as (i & Hi%list_elem_of_In & Hh%bool_decide_eq_true).
    by destruct (Hnone i).
  - rewrite (proj2 (existsb_exists _ _)); [done|].
    exists j. split; [by apply list_elem_of_In|by apply bool_decide_eq_true_2].
Qed.

(** The positions of the catalogue by the headings of the source. *)
Definition script_signatures : list nat := [0; 1; 2]%nat.
Definition event_handler_signatures : list nat := [3; 4; 5; 6; 7]%nat.

(** C2, as the code has it: the tier comes from the position of a matched
    signature in the catalogue.  A match of a script signature (0 to 2), of
    an event-handler signature (3 to 7) or of the [confirm],
    [document.cookie] or [document.write] signature (10 to 12) gives [High];
    matches among the [alert], [prompt], [eval], [iframe], [object] and
    [embed] signatures only (8, 9, 13 to 16) give [Medium]. *)
Theorem C2_risk_by_catalogue_position st content source_ip url now :
  let r := (detect_xss isalnum st content source_ip url now).2 in
  let ids := pattern_id <$> patterns r in
  ((∃ j, j ∈ ids ∧
         j ∈ script_signatures ++ event_handler_signatures ++ [10; 11; 12]%nat) →
   risk_level r = High) ∧
  ((∃ j, j ∈ ids) → (∀ j, j ∈ ids → j ∈ [8; 9; 13; 14; 15; 16]%nat) →
   risk_level r = Medium).
Proof.
  cbn zeta. rewrite detect_xss_patterns, detect_xss_risk_level. split.
  - intros (j & Hj & Hin). destruct (decide (j = 7%nat)) as [->|Hne].
    + apply (risk_level_high _ 3); [|by apply (bool_decide_unpack _)].
      rewrite reported_eq in *. apply scan_ids in Hj as (r7 & Hr7 & Hf).
      apply scan_ids. eexists. split; [done|].
      apply findall_found. apply findall_found in Hf.
      by eapply found_onmouseover.
    + apply (risk_level_high _ j); [done|].
      unfold script_signatures, event_handler_signatures in Hin. cbn [app] in Hin.
      elem_cases Hin; first [done | by apply (bool_decide_unpack _)].
  - intros (j & Hj) Hall. apply (risk_level_medium _ j); [done| |].
    + specialize (Hall j Hj). elem_cases Hall; by apply (bool_decide_unpack _).
    + intros i Hi. specialize (Hall i Hi).
      elem_cases Hall; intros Hh%(bool_decide_pack _); by vm_compute in Hh.
Qed.

End Claims.

(** ** The export and the decoding, which read no Unicode table *)

Lemma json_dumps_array_brackets items :
  ∃ body, json_dumps 0 (JArray items) = py "[" ++ body ++ py "]".
Proof.
  destruct items as [|x xs].
  - by exists [].
  - cbn [json_dumps].
    match goal with
    | |- ∃ _, _ ++ ?a ++ ?b ++ ?c ++ ?d ++ _ = _ => exists (a ++ b ++ c ++ d)
    end.
    by rewrite <-!(assoc_L (++)).
Qed.

Lemma write_file_lookup fs filename text f :
  resolve fs filename = Some f → files (write_file fs filename text) !! f = Some text.
Proof. intros Hf. unfold write_file. rewrite Hf. apply lookup_insert_eq. Qed.

Lemma write_file_other fs filename text g :
  resolve fs filename ≠ Some g → files (write_file fs filename text) !! g = files fs !! g.
Proof.
  intros Hg. unfold write_file. destruct (resolve fs filename) as [f|]; [|done].
  apply lookup_insert_ne. congruence.
Qed.

Lemma write_file_resolve fs filename text :
  resolve (write_file fs filename text) = resolve fs.
Proof. unfold write_file. by destruct (resolve fs filename). Qed.

(** C3, as the code has it: the file is opened in mode ['w'] and the whole
    attack log is written as one JSON array, indented by two.  After a call
    that opens, writes and closes the file, the file the path names holds
    that array and nothing of what it held before.  When the write or the
    close fails, what the file held is gone as well and the file holds a
    beginning of the array; when the [open] fails the file is as it was;
    both times an error is logged.  No other file changes, under whatever
    path, and no field of the detector. *)
Theorem C3_save_replaces_file_by_json_array st filename fs io f :
  resolve fs filename = Some f →
  let text := json_dumps 0 (JArray (json_of_attack <$> attack_log st)) in
  let st' := (save_log_to_file st filename fs io).1 in
  let fs' := (save_log_to_file st filename fs io).2 in
  match io with
  | SaveDone =>
      files fs' !! f = Some text ∧
      emitted st' = emitted st ++ [(INFO, py "Attack log saved to " ++ filename)]
  | WriteFails written e =>
      files fs' !! f = Some (take written text) ∧
      emitted st' = emitted st ++ [(ERROR, py "Failed to save log: " ++ e)]
  | OpenFails e =>
      fs' = fs ∧
      emitted st' = emitted st ++ [(ERROR, py "Failed to save log: " ++ e)]
  end ∧
  (∃ body, text = py "[" ++ body ++ py "]") ∧
  (∀ g, g ≠ f → files fs' !! g = files fs !! g) ∧
  (∀ other, resolve fs' other = resolve fs other) ∧
  detection_count st' = detection_count st ∧ attack_log st' = attack_log st.
Proof.
  intros Hf. cbn zeta. split_and!.
  - destruct io; cbn [save_log_to_file fst snd log_record emitted].
    + split; [by apply write_file_lookup|done].
    + done.
    + split; [by apply write_file_lookup|done].
  - apply json_dumps_array_brackets.
  - intros g Hg. destruct io; cbn [save_log_to_file snd]; [|done|];
      apply write_file_other; congruence.
  - intros other. destruct io; cbn [save_log_to_file snd]; [|done|];
      by rewrite write_file_resolve.
  - by destruct io.
  - by destruct io.
Qed.

(** A well-formed escape somewhere in the text. *)
Fixpoint has_escape (s : pystr) : bool :=
  match s with
  | [] => false
  | c :: t =>
      ((c =? chr "%")
       && match t with
          | h1 :: h2 :: _ => is_hex h1 && is_hex h2
          | _ => false
          end)
      || has_escape t
  end.

Lemma unquote_units_no_escape s :
  has_escape s = false → unquote_units s = unit_of_char <$> s.
Proof.
  induction s as [|c t IH]; [done|]. cbn [has_escape].
  intros [Hc Ht]%orb_false_elim. rewrite fmap_cons, <-(IH Ht).
  destruct (c =? chr "%") eqn:Hpct.
  - apply N.eqb_eq in Hpct as ->. rewrite unquote_units_percent.
    destruct t as [|h1 [|h2 r]]; [done..|].
    cbn [andb] in Hc. unfold is_hex in Hc.
    by destruct (hexval h1), (hexval h2).
  - by apply unquote_units_other.
Qed.

Lemma has_escape_replace_plus s : has_escape (replace_plus s) = has_escape s.
Proof.
  assert (∀ c, is_hex (if c =? chr "+" then chr " " else c) = is_hex c) as Hhex.
  { intros c. destruct (c =? chr "+") eqn:Hc; [|done]. by apply N.eqb_eq in Hc as ->. }
  assert (∀ c, ((if c =? chr "+" then chr " " else c) =? chr "%") = (c =? chr "%")) as Hpct.
  { intros c. destruct (c =? chr "+") eqn:Hc; [|done]. by apply N.eqb_eq in Hc as ->. }
  induction s as [|c t IH]; [done|].
  unfold replace_plus in *. rewrite fmap_cons. cbn [has_escape].
  rewrite IH, Hpct. destruct t as [|h1 [|h2 r]]; [done..|].
  rewrite !fmap_cons. by rewrite !Hhex.
Qed.

Lemma utf8_replace_high_byte b : 0x80 ≤ b → utf8_replace [Byte b] = [REPLACEMENT].
Proof.
  intros Hb. rewrite utf8_replace_byte.
  rewrite (proj2 (N.ltb_ge b 0x80)) by done. by repeat case_match.
Qed.

(** * Concrete runs *)

(** A table that knows no letter outside ASCII, for the runs that need one;
    their inputs are ASCII. *)
Definition ascii_only : N → bool := λ _, false.

Definition script_call : list N * list N * list N * list N :=
  (py "<script>", py "10.0.0.1", py "/search", py "2025-01-01T00:00:00").

(** A file system where every file can be opened, with an export of
    earlier entries in place. *)
(** One file, written by an earlier export, that two paths name. *)
Definition fs_with_earlier_export : filesystem :=
  {| files := {[ 1 := py "earlier entries" ]};
     resolve := λ path,
       if bool_decide (path ∈ [py "xss_attacks.json"; py "./xss_attacks.json"])
       then Some 1 else None |}.

(** C1 as stated fails: [<script>] has eight characters, fewer than ten,
    and is scanned and detected, whatever the table. *)
Lemma C1_counterexample :
  length (py "<script>") = 8%nat ∧
  ¬ ∃ isalnum,
      detected (detect_xss isalnum init (py "<script>") (py "10.0.0.1")
                  (py "/search") (py "2025-01-01T00:00:00")).2 = false.
Proof.
  split; [done|]. intros [isalnum H]. vm_compute in H. discriminate.
Qed.

(** C2 as stated fails: [eval(x)] matches the [eval] signature alone and
    gets [Medium], and [setTimeout(f, 10)] matches the [setTimeout]
    signature alone and gets [Low]. *)
Lemma C2_counterexample :
  (∀ isalnum,
     let r := (detect_xss isalnum init (py "eval(x)") (py "10.0.0.1")
                 (py "/search") (py "2025-01-01T00:00:00")).2 in
     pattern <$> patterns r = [py "eval\s*\("] ∧ risk_level r = Medium) ∧
  (∀ isalnum,
     let r := (detect_xss isalnum init (py "setTimeout(f, 10)") (py "10.0.0.1")
                 (py "/search") (py "2025-01-01T00:00:00")).2 in
     pattern <$> patterns r = [py "setTimeout\s*\("] ∧ risk_level r = Low).
Proof. split; intros isalnum; by vm_compute. Qed.

(** C3 as stated fails: the export replaces what the file held, and a log
    of one record is written as an array over seventeen lines that opens
    with a bracket on a line of its own. *)
Lemma C3_counterexample :
  files (save_log_to_file init (py "xss_attacks.json") fs_with_earlier_export SaveDone).2
    !! 1 = Some (py "[]") ∧
  ∀ isalnum,
    let st := run_detects isalnum init [script_call] in
    ∃ text,
      files (save_log_to_file st (py "xss_attacks.json") fs_with_earlier_export SaveDone).2
        !! 1 = Some text ∧
      take 2 text = [chr "["; NEWLINE] ∧
      length (filter (λ c, c = NEWLINE) text) = 17%nat.
Proof.
  split.
  - cbn [save_log_to_file snd]. by rewrite (write_file_lookup _ _ _ 1).
  - intros isalnum. cbn zeta. eexists. cbn [save_log_to_file snd].
    rewrite (write_file_lookup _ _ _ 1) by done. split; [reflexivity|]. by vm_compute.
Qed.

(** C4 as stated fails: after eleven detections the attack log holds eleven
    records, more than ten. *)
Lemma C4_counterexample :
  ¬ ∃ isalnum,
      (length (attack_log (run_detects isalnum init (replicate 11 script_call)))
       ≤ 10)%nat.
Proof. intros [isalnum H]. vm_compute in H. lia. Qed.


Lemma C2_witness :
  risk_level (detect_xss ascii_only init (py "onmouseover=x") (py "10.0.0.1")
                (py "/search") (py "2025-01-01T00:00:00")).2 = High ∧
  risk_level (detect_xss ascii_only init (py "<iframe>eval(x)") (py "10.0.0.1")
                (py "/search") (py "2025-01-01T00:00:00")).2 = Medium.
Proof.
  split.
  - apply (C2_risk_by_catalogue_position ascii_only). exists 7%nat.
    split; apply (bool_decide_unpack _); vm_compute; exact I.
  - apply (C2_risk_by_catalogue_position ascii_only).
    + exists 13%nat. apply (bool_decide_unpack _). vm_compute. exact I.
    + apply Forall_forall. apply (bool_decide_unpack _). vm_compute. exact I.
Defined.

Lemma C3_witness :
  files (save_log_to_file (run_detects ascii_only init [script_call])
           (py "./xss_attacks.json") fs_with_earlier_export SaveDone).2
    !! 1
  = Some (json_dumps 0 (JArray (json_of_attack
            <$> attack_log (run_detects ascii_only init [script_call])))).
Proof.
  exact (proj1 (proj1 (C3_save_replaces_file_by_json_array
                         (run_detects ascii_only init [script_call])
                         (py "./xss_attacks.json") fs_with_earlier_export SaveDone 1
                         eq_refl))).
Defined.

Lemma C5_witness :
  let v := (analyze_http_request ascii_only init (λ _, py "2025-01-01T00:00:00")
              (py "POST") (py "/comment") [(py "User-Agent", py "Mozilla")]
              (py "<script>alert(1)</script>") (py "10.0.0.3")).2 in
  v_detected v = true ∧ total_detections v = 1%nat ∧
  ∃ r, results v = [r] ∧ location r = Some (py "Body") ∧ detected r = true.
Proof.
  apply (C5_payload_in_body_only ascii_only).
  - vm_compute. reflexivity.
  - intros name value Hin _. apply list_elem_of_singleton in Hin.
    injection Hin as -> ->. vm_compute. reflexivity.
  - discriminate.
  - vm_compute. discriminate.
Defined.

Lemma C6_witness :
  (risk_rank (risk_level (detect_xss ascii_only init (py "<iframe>") (py "10.0.0.1")
                            (py "/search") (py "2025-01-01T00:00:00")).2)
   ≤ risk_rank (risk_level (detect_xss ascii_only init (py "<iframe>" ++ py "<script>")
                              (py "10.0.0.1") (py "/search")
                              (py "2025-01-01T00:00:00")).2))%nat.
Proof.
  apply (C6_risk_monotone_under_high_payload ascii_only init init init
           (py "<iframe>") (py "<script>") [] [] []).
  vm_compute. reflexivity.
Defined.

(** ** The scenarios of the specification *)

Example scenario_script_tag :
  let r := (detect_xss ascii_only init (py "<script>alert('XSS')</script>")
              (py "10.0.0.1") (py "/search") (py "2025-01-01T00:00:00")).2 in
  detected r = true ∧ risk_level r = High.
Proof. by vm_compute. Qed.

Example scenario_plain_query :
  let r := (detect_xss ascii_only init (py "normal search query")
              (py "10.0.0.1") (py "/search") (py "2025-01-01T00:00:00")).2 in
  detected r = false ∧ risk_level r = Low.
Proof. by vm_compute. Qed.

Example scenario_img_onerror :
  let r := (detect_xss ascii_only init (py "<img src=x onerror=alert(1)>")
              (py "10.0.0.1") (py "/search") (py "2025-01-01T00:00:00")).2 in
  detected r = true ∧ risk_level r = High ∧
  pattern_id <$> patterns r = [3; 4; 8; 17]%nat.
Proof. by vm_compute. Qed.

Example scenario_payload_in_url :
  let v := (analyze_http_request ascii_only init (λ _, py "2025-01-01T00:00:00")
              (py "GET") (py "/search?q=<svg onload=alert(1)>") [] []
              (py "10.0.0.2")).2 in
  v_detected v = true ∧ location <$> results v = [Some (py "URL")].
Proof. by vm_compute. Qed.

Example scenario_clean_request :
  let v := (analyze_http_request ascii_only init (λ _, py "2025-01-01T00:00:00")
              (py "POST") (py "/comment") [(py "User-Agent", py "Mozilla")]
              (py "comment=hello world") (py "10.0.0.3")).2 in
  v_detected v = false.
Proof. by vm_compute. Qed.

Example scenario_statistics :
  let st := run_detects ascii_only init
              [(py "<script>", py "10.0.0.1", py "/a", py "2025-01-01T00:00:00");
               (py "<iframe>", py "10.0.0.1", py "/b", py "2025-01-01T00:00:01");
               (py "javascript:", py "10.0.0.1", py "/c", py "2025-01-01T00:00:02")] in
  ai_risk_level <$> attack_log st = [High; Medium; High] ∧
  risk_levels (get_statistics st) = {| high := 2; medium := 1; low := 0 |} ∧
  stat_total_detections (get_statistics st) = 3%nat ∧
  patterns_loaded (get_statistics st) = 26%nat.
Proof. by vm_compute. Qed.

(** * Further properties of the detector *)

From stdpp Require Import sorting.

Local Open Scope N_scope.

(** ** What a call reports *)

Lemma compiled_patterns_consume : Forall (λ r, consumes r = true) compiled_patterns.
Proof. apply (bool_decide_unpack _). by vm_compute. Qed.

Lemma sorted_between_length l lo hi :
  StronglySorted lt l → Forall (λ j, lo ≤ j < hi)%nat l → (length l ≤ hi - lo)%nat.
Proof.
  revert lo. induction l as [|x l IH]; intros lo Hsorted Hall; cbn [length]; [lia|].
  apply StronglySorted_cons in Hsorted as [Hx Hsorted].
  apply Forall_cons in Hall as [Hlo Hall].
  assert (length l ≤ hi - S x)%nat; [|lia].
  apply IH; [done|]. rewrite Forall_forall in *. intros j Hj.
  specialize (Hx j Hj). specialize (Hall j Hj). cbn beta in *. lia.
Qed.

Section Reports.

Variable isalnum : N → bool.

(** The matches of [findall] are pieces of the text. *)
Lemma findall_from_pieces r skip s :
  Forall (λ m, ∃ a b n, s = a ++ m ++ b ∧ match_here isalnum r (m ++ b) = Some n ∧
                        m = take n (m ++ b))
         (findall_from isalnum r skip s).
Proof.
  revert skip. induction s as [|c s IH]; intros skip; cbn [findall_from]; [done|].
  assert (∀ k, Forall (λ m, ∃ a b n, c :: s = a ++ m ++ b ∧
                                      match_here isalnum r (m ++ b) = Some n ∧
                                      m = take n (m ++ b))
                      (findall_from isalnum r k s)) as Hrest.
  { intros k. eapply Forall_impl; [apply IH|].
    intros m (a & b & n & -> & Hn & Hm). by exists (c :: a), b, n. }
  destruct skip as [|k]; [|done].
  destruct (match_here isalnum r (c :: s)) as [n|] eqn:Hm; [|done].
  constructor; [|done].
  exists [], (drop n (c :: s)), n. rewrite take_drop. by split_and!.
Qed.

Lemma findall_pieces r s :
  consumes r = true →
  Forall (λ m, m ≠ [] ∧ ∃ a b, s = a ++ m ++ b) (findall isalnum r s).
Proof.
  intros Hr. eapply Forall_impl; [apply findall_from_pieces|].
  intros m (a & b & n & -> & Hn & Hm). split; [|by exists a, b].
  apply match_here_sound in Hn as (w & rest & Heq & Hlen & Hw).
  assert (m = w) as ->.
  { rewrite Hm, Heq, <-Hlen. by rewrite take_app_length. }
  by eapply lang_consumes.
Qed.

Lemma scan_from_shape i compiled decoded :
  Forall (λ p, (i ≤ pattern_id p < i + length compiled)%nat ∧
               pattern p = default [] (xss_patterns !! pattern_id p) ∧
               ∃ r, compiled !! (pattern_id p - i)%nat = Some r ∧
                    findall isalnum r decoded ≠ [] ∧
                    matches p = take 5 (findall isalnum r decoded))
         (scan_from isalnum i compiled decoded) ∧
  Forall (λ p, i ≤ pattern_id p)%nat (scan_from isalnum i compiled decoded) ∧
  StronglySorted lt (pattern_id <$> scan_from isalnum i compiled decoded).
Proof.
  revert i. induction compiled as [|r0 rest IH]; intros i; cbn [scan_from].
  { split_and!; constructor. }
  destruct (IH (S i)) as (Hshape & Hlow & Hsorted).
  assert (Forall (λ p, (i ≤ pattern_id p < i + length (r0 :: rest))%nat ∧
               pattern p = default [] (xss_patterns !! pattern_id p) ∧
               ∃ r, (r0 :: rest) !! (pattern_id p - i)%nat = Some r ∧
                    findall isalnum r decoded ≠ [] ∧
                    matches p = take 5 (findall isalnum r decoded))
            (scan_from isalnum (S i) rest decoded)) as Hshape'.
  { eapply Forall_impl; [exact Hshape|].
    intros p (Hid & Hp & r & Hr & Hne & Hm). cbn [length]. split_and!; [lia..|done|].
    exists r. split_and!; [|done..].
    replace (pattern_id p - i)%nat with (S (pattern_id p - S i)) by lia. done. }
  assert (Forall (λ p, i ≤ pattern_id p)%nat (scan_from isalnum (S i) rest decoded))
    as Hlow'.
  { eapply Forall_impl; [exact Hlow|]. intros p ?. cbn beta in *. lia. }
  destruct (findall isalnum r0 decoded) as [|m ms] eqn:Hf; [done|].
  split_and!.
  - constructor; [|done]. cbn [pattern_id pattern matches length].
    split_and!; [lia..|done|]. exists r0. rewrite Nat.sub_diag, Hf. by split_and!.
  - constructor; [cbn [pattern_id]; lia|done].
  - rewrite fmap_cons. constructor; [done|]. cbn [pattern_id].
    apply Forall_fmap. eapply Forall_impl; [exact Hlow|]. intros p ?. cbn in *. lia.
Qed.

(** X1: the patterns a call reports come in the order of the catalogue,
    each signature once; each names a position of the catalogue and
    carries the text of the signature at that position and between one
    and five matches. *)
Theorem X1_reported_patterns_follow_catalogue st content source_ip url now :
  let r := (detect_xss isalnum st content source_ip url now).2 in
  StronglySorted lt (pattern_id <$> patterns r) ∧
  (length (patterns r) ≤ length xss_patterns)%nat ∧
  Forall (λ p, xss_patterns !! pattern_id p = Some (pattern p) ∧
               (1 ≤ length (matches p) ≤ 5)%nat) (patterns r).
Proof.
  cbn zeta. rewrite detect_xss_patterns.
  assert (reported isalnum content = [] ∨
          reported isalnum content = scan isalnum (decoded_content content)) as [-> | ->].
  { destruct content; [by left|by right]. }
  { split_and!; [constructor|cbn; lia|constructor]. }
  unfold scan.
  destruct (scan_from_shape 0 compiled_patterns (decoded_content content))
    as (Hshape & _ & Hsorted).
  split_and!; [done| |].
  - rewrite <-(length_fmap pattern_id). change (length xss_patterns) with 26%nat.
    apply (sorted_between_length _ 0 26); [done|]. apply Forall_fmap.
    eapply Forall_impl; [exact Hshape|]. intros p (Hid & _). unfold compose.
    change (length compiled_patterns) with 26%nat in Hid. lia.
  - eapply Forall_impl; [exact Hshape|].
    intros p (Hid & Hp & r & Hr & Hne & Hm). split.
    + rewrite Hp. change (length compiled_patterns) with (length xss_patterns) in Hid.
      destruct (xss_patterns !! pattern_id p) eqn:Hx; [done|].
      apply lookup_ge_None in Hx. lia.
    + rewrite Hm, length_take. destruct (findall isalnum r (decoded_content content)); [done|].
      cbn [length]. lia.
Qed.

(** X2: every match a call reports is a piece of the decoded content, of
    one character at least, and the sample of the record is the decoded
    content cut after 200 characters. *)
Theorem X2_matches_are_pieces_of_decoded_content st content source_ip url now :
  let r := (detect_xss isalnum st content source_ip url now).2 in
  Forall (λ p, Forall (λ m, m ≠ [] ∧ ∃ a b, decoded_content content = a ++ m ++ b)
                      (matches p)) (patterns r) ∧
  match res_attack_info r with
  | Some info =>
      content_sample info `prefix_of` decoded_content content ∧
      length (content_sample info) = (length (decoded_content content) `min` 200)%nat
  | None => detected r = false
  end.
Proof.
  cbn zeta. split.
  - rewrite detect_xss_patterns.
    assert (reported isalnum content = [] ∨
            reported isalnum content = scan isalnum (decoded_content content)) as [-> | ->].
    { destruct content; [by left|by right]. }
    { constructor. }
    unfold scan.
    destruct (scan_from_shape 0 compiled_patterns (decoded_content content))
      as (Hshape & _ & _).
    eapply Forall_impl; [exact Hshape|].
    intros p (_ & _ & r & Hr & _ & ->). rewrite Nat.sub_0_r in Hr.
    apply Forall_take. apply findall_pieces.
    pose proof compiled_patterns_consume as Hc. rewrite Forall_forall in Hc.
    apply Hc. by eapply list_elem_of_lookup_2.
  - unfold detect_xss. destruct content as [|c content]; [done|].
    case_bool_decide; [|done]. cbn [snd res_attack_info content_sample].
    split; [apply prefix_take|]. rewrite length_take. lia.
Qed.

End Reports.

(** ** The risk level of a set of reports *)

Lemma risk_level_cases (ps : list detected_pattern) :
  let hit l := existsb (λ pid, bool_decide (pid ∈ l)) (pattern_id <$> ps) in
  _calculate_risk_level ps
  = if hit high_risk_patterns then High
    else if hit medium_risk_patterns then Medium else Low.
Proof. done. Qed.

Lemma existsb_ids_spec (l : list nat) (ps : list detected_pattern) :
  existsb (λ pid, bool_decide (pid ∈ l)) (pattern_id <$> ps) = true ↔
  ∃ p, p ∈ ps ∧ pattern_id p ∈ l.
Proof.
  rewrite existsb_exists. split.
  - intros (j & Hj%list_elem_of_In & Hl%bool_decide_eq_true).
    apply list_elem_of_fmap in Hj as (p & -> & Hp). by exists p.
  - intros (p & Hp & Hl). exists (pattern_id p). split.
    + apply list_elem_of_In, list_elem_of_fmap. by exists p.
    + by apply bool_decide_eq_true.
Qed.

(** X3: the risk level of two lists of reports put together is the higher
    of their two levels; a list is [High] exactly when it holds a report at
    one of the positions 0 to 6 and 10 to 12, and [Low] exactly when it
    holds none at these nor at the positions 7 to 9 and 13 to 16. *)
Theorem X3_risk_level_is_highest_tier (ps qs : list detected_pattern) :
  risk_rank (_calculate_risk_level (ps ++ qs))
  = (risk_rank (_calculate_risk_level ps) `max` risk_rank (_calculate_risk_level qs))%nat ∧
  (_calculate_risk_level ps = High ↔
   ∃ p, p ∈ ps ∧ pattern_id p ∈ high_risk_patterns) ∧
  (_calculate_risk_level ps = Low ↔
   ∀ p, p ∈ ps → pattern_id p ∉ high_risk_patterns ++ medium_risk_patterns).
Proof.
  split_and!.
  - rewrite !risk_level_cases. cbn zeta. rewrite !fmap_app, !existsb_app.
    repeat (destruct (existsb _ _)); done.
  - rewrite risk_level_cases. cbn zeta. rewrite <-existsb_ids_spec.
    repeat (destruct (existsb _ _)); split; done.
  - rewrite risk_level_cases. cbn zeta.
    destruct (existsb _ _) eqn:Hh.
    { split; [done|]. intros Hall. apply existsb_ids_spec in Hh as (p & Hp & Hin).
      destruct (Hall p Hp). apply elem_of_app. by left. }
    destruct (existsb (λ pid, bool_decide (pid ∈ medium_risk_patterns)) _) eqn:Hm.
    { split; [done|]. intros Hall. apply existsb_ids_spec in Hm as (p & Hp & Hin).
      destruct (Hall p Hp). apply elem_of_app. by right. }
    split; [|done]. intros _ p Hp [Hin|Hin]%elem_of_app.
    + assert (existsb (λ pid, bool_decide (pid ∈ high_risk_patterns)) (pattern_id <$> ps)
              = true) as Hex by (apply existsb_ids_spec; eauto).
      congruence.
    + assert (existsb (λ pid, bool_decide (pid ∈ medium_risk_patterns)) (pattern_id <$> ps)
              = true) as Hex by (apply existsb_ids_spec; eauto).
      congruence.
Qed.

(** ** Statistics *)

Lemma bump_counts (log : list attack_info) (c : risk_counts) :
  let c' := foldl (λ c attack, bump c (ai_risk_level attack)) c log in
  high c' = (high c + length (filter (λ a, ai_risk_level a = High) log))%nat ∧
  medium c' = (medium c + length (filter (λ a, ai_risk_level a = Medium) log))%nat ∧
  low c' = (low c + length (filter (λ a, ai_risk_level a = Low) log))%nat.
Proof.
  revert c. induction log as [|a log IH]; intros c; cbn zeta.
  { cbn. lia. }
  cbn [foldl]. destruct (IH (bump c (ai_risk_level a))) as (Hh & Hm & Hl).
  cbn zeta in *. rewrite Hh, Hm, Hl, !filter_cons.
  destruct (ai_risk_level a); cbn [bump high medium low];
    repeat case_decide; try done; cbn [length]; lia.
Qed.

Lemma filter_risk_partition (log : list attack_info) :
  (length (filter (λ a, ai_risk_level a = High) log)
   + length (filter (λ a, ai_risk_level a = Medium) log)
   + length (filter (λ a, ai_risk_level a = Low) log))%nat = length log.
Proof.
  induction log as [|a log IH]; [done|]. rewrite !filter_cons.
  destruct (ai_risk_level a); repeat case_decide; try done; cbn [length]; lia.
Qed.

(** X4: in the statistics every tier counts the records of the log with
    that risk level, so the three counts add up to the length of the log;
    the total is the detector's counter and 26 patterns are loaded. *)
Theorem X4_statistics_count_the_log st :
  let s := get_statistics st in
  high (risk_levels s) = length (filter (λ a, ai_risk_level a = High) (attack_log st)) ∧
  medium (risk_levels s) = length (filter (λ a, ai_risk_level a = Medium) (attack_log st)) ∧
  low (risk_levels s) = length (filter (λ a, ai_risk_level a = Low) (attack_log st)) ∧
  (high (risk_levels s) + medium (risk_levels s) + low (risk_levels s))%nat
  = length (attack_log st) ∧
  stat_total_detections s = detection_count st ∧
  patterns_loaded s = 26%nat.
Proof.
  cbn zeta. unfold get_statistics. cbn [risk_levels stat_total_detections patterns_loaded].
  destruct (bump_counts (attack_log st) {| high := 0; medium := 0; low := 0 |})
    as (Hh & Hm & Hl). cbn zeta in *. cbn [high medium low] in *.
  rewrite Hh, Hm, Hl. cbn [Nat.add]. split_and!; [done..| |done|done].
  apply filter_risk_partition.
Qed.

(** ** The effect of calls on the detector *)

#[global] Instance log_level_eq_dec : EqDecision log_level.
Proof. solve_decision. Defined.

(** A record as [detect_xss] builds it: it has a pattern, its risk level
    is the one of its patterns, its sample has 200 characters at most. *)
Definition record_ok (a : attack_info) : Prop :=
  detected_patterns a ≠ [] ∧
  ai_risk_level a = _calculate_risk_level (detected_patterns a) ∧
  (length (content_sample a) ≤ 200)%nat.

Definition warnings (st : state) : nat :=
  length (filter (λ e, e.1 = WARNING) (emitted st)).

(** A result as [analyze_http_request] keeps it. *)
Definition located (r : result) : Prop :=
  detected r = true ∧ is_Some (location r) ∧ is_Some (res_attack_info r).

(** The operations of the detector that change it or the files. *)
Inductive call : Type :=
  | CallDetect (content source_ip url now : list N)
  | CallAnalyze (clock : nat → list N) (method url : list N)
                (headers : list (list N * list N)) (body source_ip : list N)
  | CallSave (filename : list N) (io : save_outcome).

Section Effects.

Variable isalnum : N → bool.

Definition step (w : state * filesystem) (c : call) : state * filesystem :=
  match c with
  | CallDetect content source_ip url now =>
      ((detect_xss isalnum w.1 content source_ip url now).1, w.2)
  | CallAnalyze clock method url headers body source_ip =>
      ((analyze_http_request isalnum w.1 clock method url headers body source_ip).1, w.2)
  | CallSave filename io => save_log_to_file w.1 filename w.2 io
  end.

Definition run (w : state * filesystem) (calls : list call) : state * filesystem :=
  foldl step w calls.

Lemma detect_xss_effect st content source_ip url now :
  let st' := (detect_xss isalnum st content source_ip url now).1 in
  let r := (detect_xss isalnum st content source_ip url now).2 in
  match res_attack_info r with
  | Some info =>
      detected r = true ∧ location r = None ∧
      detection_count st' = (detection_count st + 1)%nat ∧
      attack_log st' = attack_log st ++ [info] ∧
      emitted st' = emitted st ++ [(WARNING, attack_message info)] ∧
      record_ok info
  | None => detected r = false ∧ st' = st
  end.
Proof.
  unfold detect_xss. destruct content as [|c content]; [done|].
  case_bool_decide as Hlen; [|done].
  cbn [fst snd res_attack_info detected location detection_count attack_log emitted
       _log_attack].
  split_and!; [done..|]. unfold record_ok.
  cbn [detected_patterns ai_risk_level content_sample].
  split_and!; [|done|rewrite length_take; lia].
  intros Hnil. rewrite Hnil in Hlen. cbn in Hlen. lia.
Qed.

(** What [analyze_http_request] has done to the state [st0] when it has
    got as far as [p]. *)
Definition progress_ok (st0 : state) (p : progress) : Prop :=
  let '(st, _, rs) := p in
  Forall located rs ∧
  detection_count st = (detection_count st0 + length rs)%nat ∧
  attack_log st = attack_log st0 ++ omap res_attack_info rs ∧
  emitted st
  = emitted st0 ++ ((λ a, (WARNING, attack_message a)) <$> omap res_attack_info rs) ∧
  Forall record_ok (omap res_attack_info rs).

Lemma inspect_progress_ok st0 clock source_ip url p content loc :
  progress_ok st0 p →
  progress_ok st0 (inspect isalnum clock source_ip url p content loc).
Proof.
  destruct p as [[st k] rs]. intros (Hrs & Hcount & Hlog & Hemit & Hok).
  unfold inspect.
  pose proof (detect_xss_effect st content source_ip url (clock k)) as Heff.
  destruct (detect_xss isalnum st content source_ip url (clock k)) as [st' r].
  cbn [fst snd] in Heff.
  destruct (res_attack_info r) as [info|] eqn:Hinfo.
  - destruct Heff as (Hdet & _ & Hc & Hl & He & Hrec). rewrite Hdet.
    unfold progress_ok. rewrite omap_app. cbn [omap list_omap with_location res_attack_info].
    rewrite Hinfo. cbn [mbind option_bind]. split_and!.
    + apply Forall_app. split; [done|]. constructor; [|done].
      unfold located. cbn [with_location detected location res_attack_info].
      by rewrite Hinfo.
    + rewrite Hc, Hcount, length_app. cbn [length]. lia.
    + by rewrite Hl, Hlog, (assoc_L (++)).
    + by rewrite He, Hemit, fmap_app, (assoc_L (++)).
    + apply Forall_app. split; [done|]. by constructor.
  - destruct Heff as (Hdet & ->). rewrite Hdet. done.
Qed.

Lemma inspect_headers_progress_ok st0 clock source_ip url p headers :
  progress_ok st0 p →
  progress_ok st0 (inspect_headers isalnum clock source_ip url p headers).
Proof.
  revert p. induction headers as [|[name value] headers IH]; intros p Hp; [done|].
  cbn [inspect_headers]. apply IH.
  destruct (is_inspected name); [|done]. by apply inspect_progress_ok.
Qed.

Lemma analyze_progress_ok st clock method url headers body source_ip :
  ∃ k, progress_ok st
         ((analyze_http_request isalnum st clock method url headers body source_ip).1, k,
          results (analyze_http_request isalnum st clock method url headers body
                     source_ip).2) ∧
       total_detections
         (analyze_http_request isalnum st clock method url headers body source_ip).2
       = length (results (analyze_http_request isalnum st clock method url headers body
                            source_ip).2) ∧
       v_detected
         (analyze_http_request isalnum st clock method url headers body source_ip).2
       = bool_decide (0 < length (results (analyze_http_request isalnum st clock method
                                             url headers body source_ip).2))%nat.
Proof.
  unfold analyze_http_request.
  assert (progress_ok st (st, 0%nat, [])) as H0.
  { unfold progress_ok. cbn. rewrite !app_nil_r. split_and!; [done|lia|done..]. }
  apply (inspect_progress_ok st clock source_ip url _ url (py "URL")) in H0.
  apply (inspect_headers_progress_ok st clock source_ip url _ headers) in H0.
  assert (progress_ok st
            match body with
            | [] => inspect_headers isalnum clock source_ip url
                      (inspect isalnum clock source_ip url (st, 0%nat, []) url (py "URL"))
                      headers
            | _ :: _ =>
                inspect isalnum clock source_ip url
                  (inspect_headers isalnum clock source_ip url
                     (inspect isalnum clock source_ip url (st, 0%nat, []) url (py "URL"))
                     headers) body (py "Body")
            end) as H1.
  { destruct body; [done|]. by apply inspect_progress_ok. }
  destruct (match body with [] => _ | _ :: _ => _ end) as [[st' k] rs].
  exists k. by cbn [fst snd results total_detections v_detected].
Qed.

(** X5: a request adds to the detector's counter the number of locations
    that triggered, and to the attack log the records of its results, in
    their order; every result it returns is a detection with a location
    and a record, [total_detections] is their number and [detected] tells
    whether there is one. *)
Theorem X5_request_effect_matches_verdict
    st clock method url headers body source_ip :
  let st' := (analyze_http_request isalnum st clock method url headers body source_ip).1 in
  let v := (analyze_http_request isalnum st clock method url headers body source_ip).2 in
  detection_count st' = (detection_count st + total_detections v)%nat ∧
  attack_log st' = attack_log st ++ omap res_attack_info (results v) ∧
  length (omap res_attack_info (results v)) = total_detections v ∧
  total_detections v = length (results v) ∧
  v_detected v = bool_decide (results v ≠ []) ∧
  Forall located (results v).
Proof.
  cbn zeta.
  destruct (analyze_progress_ok st clock method url headers body source_ip)
    as (k & (Hrs & Hcount & Hlog & _ & _) & Htotal & Hdet).
  rewrite Htotal, Hdet. split_and!; [done|done| |done| |done].
  - clear -Hrs. induction Hrs as [|r rs (_ & _ & [info Hinfo]) _ IH]; [done|].
    cbn [omap list_omap length]. rewrite Hinfo. cbn. by rewrite <-IH.
  - destruct (results _); [done|]. cbn [length].
    rewrite bool_decide_eq_true_2 by lia. by rewrite bool_decide_eq_true_2.
Qed.

End Effects.

(** ** What holds of the detector after any calls *)

Definition detector_inv (st : state) : Prop :=
  detection_count st = length (attack_log st) ∧
  warnings st = detection_count st ∧
  Forall record_ok (attack_log st).

Lemma warnings_app st st' (new : list attack_info) :
  emitted st' = emitted st ++ ((λ a, (WARNING, attack_message a)) <$> new) →
  warnings st' = (warnings st + length new)%nat.
Proof.
  unfold warnings. intros ->. rewrite filter_app, length_app. f_equal.
  induction new as [|a new IH]; [done|].
  rewrite fmap_cons, filter_cons. cbn [fst]. rewrite decide_True by done.
  cbn [length]. by rewrite IH.
Qed.

Lemma located_records rs :
  Forall located rs → length (omap res_attack_info rs) = length rs.
Proof.
  induction 1 as [|r rs (_ & _ & [info Hinfo]) _ IH]; [done|].
  cbn [omap list_omap length]. rewrite Hinfo. cbn. by rewrite <-IH.
Qed.

Section Invariant.

Variable isalnum : N → bool.

Lemma detector_inv_init : detector_inv init.
Proof. split_and!; [done|done|constructor]. Qed.

Lemma detector_inv_detect st content source_ip url now :
  detector_inv st → detector_inv (detect_xss isalnum st content source_ip url now).1.
Proof.
  intros (Hcount & Hwarn & Hrec).
  pose proof (detect_xss_effect isalnum st content source_ip url now) as Heff.
  cbn zeta in Heff.
  destruct (res_attack_info _) as [info|].
  - destruct Heff as (_ & _ & Hc & Hl & He & Hok). split_and!.
    + rewrite Hc, Hl, length_app, Hcount. done.
    + rewrite (warnings_app st _ [info]) by done. rewrite Hc, Hwarn. done.
    + rewrite Hl. apply Forall_app. split; [done|]. by constructor.
  - destruct Heff as (_ & ->). done.
Qed.

Lemma detector_inv_analyze st clock method url headers body source_ip :
  detector_inv st →
  detector_inv (analyze_http_request isalnum st clock method url headers body source_ip).1.
Proof.
  intros (Hcount & Hwarn & Hrec).
  destruct (analyze_progress_ok isalnum st clock method url headers body source_ip)
    as (k & (Hrs & Hc & Hl & He & Hok) & _ & _).
  pose proof (located_records _ Hrs) as Hlen. split_and!.
  - rewrite Hc, Hl, length_app, Hlen, Hcount. done.
  - rewrite (warnings_app st _ _ He), Hc, Hwarn, Hlen. done.
  - rewrite Hl. by apply Forall_app.
Qed.

Lemma detector_inv_log_record st lv msg :
  lv ≠ WARNING → detector_inv st → detector_inv (log_record st lv msg).
Proof.
  intros Hlv (Hcount & Hwarn & Hrec). unfold detector_inv, warnings, log_record.
  cbn [detection_count attack_log emitted]. split_and!; [done| |done].
  rewrite filter_app, filter_cons, filter_nil. cbn [fst].
  rewrite decide_False, app_nil_r by done. exact Hwarn.
Qed.

Lemma detector_inv_save st filename fs io :
  detector_inv st → detector_inv (save_log_to_file st filename fs io).1.
Proof.
  intros Hinv. unfold save_log_to_file.
  destruct io; cbn [fst]; by apply detector_inv_log_record.
Qed.

Lemma detector_inv_run w calls :
  detector_inv w.1 → detector_inv (run isalnum w calls).1.
Proof.
  revert w. induction calls as [|c calls IH]; intros w Hw; [done|].
  cbn [run foldl]. apply (IH (step isalnum w c)).
  destruct c; cbn [step fst].
  - by apply detector_inv_detect.
  - by apply detector_inv_analyze.
  - by apply detector_inv_save.
Qed.

(** X6: after [__init__] and any sequence of calls of [detect_xss],
    [analyze_http_request] and [save_log_to_file], whatever the files and
    however the saves end, the counter of detections is the length of the attack log, which is also
    the number of warnings handed to the logger and the sum of the three
    counts of the statistics; every record of the log has a pattern, the
    risk level of its patterns and a sample of 200 characters at most. *)
Theorem X6_counter_log_and_statistics_agree fs calls :
  let st := (run isalnum (init, fs) calls).1 in
  let s := get_statistics st in
  detection_count st = length (attack_log st) ∧
  warnings st = detection_count st ∧
  stat_total_detections s
  = (high (risk_levels s) + medium (risk_levels s) + low (risk_levels s))%nat ∧
  Forall record_ok (attack_log st).
Proof.
  cbn zeta.
  destruct (detector_inv_run (init, fs) calls detector_inv_init) as (Hcount & Hwarn & Hrec).
  split_and!; [done..| |done].
  unfold get_statistics. cbn [stat_total_detections risk_levels].
  destruct (bump_counts (attack_log (run isalnum (init, fs) calls).1)
              {| high := 0; medium := 0; low := 0 |}) as (Hh & Hm & Hl).
  cbn zeta in *. cbn [high medium low] in *. rewrite Hh, Hm, Hl, Hcount. cbn [Nat.add].
  symmetry. apply filter_risk_partition.
Qed.

(** ** Which parts of a request are looked at *)

Lemma inspect_headers_filter clock source_ip url p headers :
  inspect_headers isalnum clock source_ip url p headers
  = inspect_headers isalnum clock source_ip url p
      (filter (λ h, is_inspected h.1 = true) headers).
Proof.
  revert p. induction headers as [|[name value] headers IH]; intros p; [done|].
  rewrite filter_cons. cbn [fst inspect_headers].
  destruct (is_inspected name) eqn:Hname.
  - rewrite decide_True by done. cbn [inspect_headers]. rewrite Hname. apply IH.
  - rewrite decide_False by done. apply IH.
Qed.

(** X7: a request is judged by its URL, its [User-Agent], [Referer] and
    [X-Forwarded-For] headers and its body alone: the method and the other
    headers change neither the verdict nor the state. *)
Theorem X7_method_and_other_headers_ignored
    st clock method method' url headers body source_ip :
  analyze_http_request isalnum st clock method url headers body source_ip
  = analyze_http_request isalnum st clock method' url
      (filter (λ h, is_inspected h.1 = true) headers) body source_ip.
Proof. unfold analyze_http_request. by rewrite <-inspect_headers_filter. Qed.

Lemma inspect_locations clock source_ip url p content loc :
  ∃ o, (o = [] ∨ o = [Some loc]) ∧
       location <$> (inspect isalnum clock source_ip url p content loc).2
       = (location <$> p.2) ++ o.
Proof.
  destruct p as [[st k] rs]. unfold inspect.
  destruct (detect_xss isalnum st content source_ip url (clock k)) as [st' r].
  destruct (detected r); cbn [snd].
  - exists [Some loc]. split; [by right|]. by rewrite fmap_app.
  - exists []. split; [by left|]. by rewrite app_nil_r.
Qed.

Lemma sublist_snoc_option {A} (l k o : list A) (x : A) :
  l `sublist_of` k → o = [] ∨ o = [x] → (l ++ o) `sublist_of` (k ++ [x]).
Proof.
  intros Hlk [-> | ->].
  - rewrite app_nil_r. by apply sublist_inserts_r.
  - by apply sublist_app.
Qed.

Lemma inspect_headers_locations clock source_ip url p headers (expected : list (list N)) :
  (location <$> p.2) `sublist_of` (Some <$> expected) →
  (location <$> (inspect_headers isalnum clock source_ip url p headers).2)
  `sublist_of`
  (Some <$> (expected ++ ((λ h, py "Header-" ++ h.1)
                            <$> filter (λ h, is_inspected h.1 = true) headers))).
Proof.
  revert p expected. induction headers as [|[name value] headers IH]; intros p expected Hp.
  { cbn. by rewrite app_nil_r. }
  rewrite filter_cons. cbn [fst inspect_headers].
  destruct (is_inspected name) eqn:Hname.
  - rewrite decide_True by done. rewrite fmap_cons, cons_middle, (assoc_L (++)).
    apply IH.
    destruct (inspect_locations clock source_ip url p value (py "Header-" ++ name))
      as (o & Ho & ->).
    rewrite fmap_app. by apply sublist_snoc_option.
  - rewrite decide_False by done. by apply IH.
Qed.

(** X8: the locations of the results of a request come in the order URL,
    inspected headers as the dictionary lists them, Body, each once at
    most: they are a sublist of [URL], [Header-<name>] for every inspected
    header name as it is written, and [Body] when the body is not empty. *)
Theorem X8_result_locations st clock method url headers body source_ip :
  let v := (analyze_http_request isalnum st clock method url headers body source_ip).2 in
  (location <$> results v)
  `sublist_of`
  (Some <$> ([py "URL"]
             ++ ((λ h, py "Header-" ++ h.1)
                   <$> filter (λ h, is_inspected h.1 = true) headers)
             ++ match body with [] => [] | _ => [py "Body"] end)).
Proof.
  cbn zeta. unfold analyze_http_request.
  pose proof (inspect_locations clock source_ip url (st, 0%nat, []) url (py "URL"))
    as (o & Ho & Hurl).
  assert ((location <$> (inspect isalnum clock source_ip url (st, 0%nat, []) url
                           (py "URL")).2) `sublist_of` (Some <$> [py "URL"])) as H1.
  { rewrite Hurl. by apply (sublist_snoc_option [] [] o). }
  apply (inspect_headers_locations clock source_ip url _ headers) in H1.
  destruct body as [|c body].
  - rewrite app_nil_r.
    by destruct (inspect_headers _ _ _ _ _ _) as [[st' k] rs].
  - pose proof (inspect_locations clock source_ip url
                  (inspect_headers isalnum clock source_ip url
                     (inspect isalnum clock source_ip url (st, 0%nat, []) url (py "URL"))
                     headers) (c :: body) (py "Body")) as (o' & Ho' & Hbody).
    destruct (inspect isalnum clock source_ip url (inspect_headers _ _ _ _ _ _) _ _)
      as [[st' k] rs].
    cbn [snd results] in *. rewrite Hbody, (assoc_L (++)), fmap_app.
    by apply sublist_snoc_option.
Qed.

End Invariant.

(** ** Saving the log *)

(** X9: [save_log_to_file] never changes the counter, the attack log or
    the statistics of the detector, nor which file a path names, nor any
    file but the one its path names, and hands one record to the logger:
    the notice of the save when the file was opened, written and closed,
    and else an error with the message of the failure, be it of the
    [open], of the write or of the close.  A failed [open] changes no
    file.  A save that succeeds after any call, failed or not, leaves the
    files as a first save that succeeds leaves them: saving twice is
    saving once. *)
Theorem X9_save_keeps_detector_and_is_idempotent st filename fs io :
  let st1 := (save_log_to_file st filename fs io).1 in
  let fs1 := (save_log_to_file st filename fs io).2 in
  detection_count st1 = detection_count st ∧
  attack_log st1 = attack_log st ∧
  get_statistics st1 = get_statistics st ∧
  resolve fs1 = resolve fs ∧
  (∀ g, resolve fs filename ≠ Some g → files fs1 !! g = files fs !! g) ∧
  match io with
  | SaveDone =>
      emitted st1 = emitted st ++ [(INFO, py "Attack log saved to " ++ filename)]
  | OpenFails e =>
      fs1 = fs ∧ emitted st1 = emitted st ++ [(ERROR, py "Failed to save log: " ++ e)]
  | WriteFails _ e =>
      emitted st1 = emitted st ++ [(ERROR, py "Failed to save log: " ++ e)]
  end ∧
  files (save_log_to_file st1 filename fs1 SaveDone).2
  = files (save_log_to_file st filename fs SaveDone).2.
Proof.
  cbn zeta.
  assert (∀ text text',
            files (write_file (write_file fs filename text) filename text')
            = files (write_file fs filename text')) as Htwice.
  { intros text text'. unfold write_file.
    destruct (resolve fs filename) as [f|] eqn:Hf; cbn [resolve files]; rewrite Hf; [|done].
    cbn [files]. apply insert_insert_eq. }
  split_and!.
  - by destruct io.
  - by destruct io.
  - by destruct io.
  - destruct io; cbn [save_log_to_file snd]; [|done|]; apply write_file_resolve.
  - intros g Hg. destruct io; cbn [save_log_to_file snd]; [|done|];
      by apply write_file_other.
  - by destruct io.
  - destruct io; cbn [save_log_to_file fst snd log_record attack_log]; [|done|];
      apply Htwice.
Qed.

(** ** Text that cannot be flagged *)

(** Every signature holds one of these characters as a literal. *)
Definition marker_chars : list N := py "<:=(.".

Definition has_marker (r : regex) : bool :=
  existsb (λ it, match it with
                 | (Lit c, One) => bool_decide (c ∈ marker_chars)
                 | _ => false
                 end) r.

Lemma compiled_patterns_have_marker :
  Forall (λ r, has_marker r = true) compiled_patterns.
Proof. apply (bool_decide_unpack _). by vm_compute. Qed.

Ltac member_cases H :=
  repeat (apply elem_of_cons in H as [->|H]); [..|by apply elem_of_nil in H].

Lemma marker_exact c x : c ∈ marker_chars → lit_match c x = true → x = c.
Proof.
  intros Hc. unfold marker_chars in Hc. cbn in Hc.
  member_cases Hc; cbn; by intros ?%N.eqb_eq.
Qed.

Section Harmless.

Variable isalnum : N → bool.

Lemma lang_marker r w :
  has_marker r = true → lang isalnum r w → ∃ c, c ∈ marker_chars ∧ c ∈ w.
Proof.
  revert w. induction r as [|[a q] r IH]; intros w; cbn [has_marker existsb]; [done|].
  intros Hm (u & v & -> & Hu & Hv & Hq).
  apply orb_prop in Hm as [Hm|Hm].
  - destruct a as [c| | | |]; try done. destruct q; try done.
    apply bool_decide_eq_true in Hm.
    destruct u as [|x [|??]]; simplify_eq/=. apply Forall_cons in Hu as [Hx _].
    apply (marker_exact c x Hm) in Hx as ->. exists c. split; [done|].
    apply elem_of_cons. by left.
  - destruct (IH v Hm Hv) as (c & Hc & Hin). exists c. split; [done|].
    apply elem_of_app. by right.
Qed.

(** X10: a content without any of the characters [%], [<], [:], [=], [(]
    and [.] is never detected, and the call leaves the state as it was:
    every signature needs one of the last five, and without [%] the decoding
    brings none in. *)
Theorem X10_text_without_markers_is_never_flagged st content source_ip url now :
  (∀ c, c ∈ content → c ∉ py "%<:=(.") →
  detect_xss isalnum st content source_ip url now = (st, not_detected).
Proof.
  intros Hclean. apply detect_xss_clean.
  assert (decoded_content content = replace_plus content) as ->.
  { rewrite decoded_content_eq. unfold unquote_plus, unquote.
    rewrite bool_decide_eq_false_2; [done|].
    unfold replace_plus. intros (c & Hc & Hin)%list_elem_of_fmap.
    destruct (c =? chr "+"); [done|]. subst c.
    apply (Hclean _ Hin). by apply (bool_decide_unpack _). }
  destruct (scan isalnum (replace_plus content)) as [|p ps] eqn:Hs; [done|].
  exfalso.
  assert (pattern_id p ∈ pattern_id <$> scan isalnum (replace_plus content)) as Hin.
  { rewrite Hs, fmap_cons. apply elem_of_cons. by left. }
  apply scan_ids in Hin as (r & Hr & Hf).
  apply findall_found in Hf as (a & w & b & Heq & Hw & _).
  pose proof compiled_patterns_have_marker as Hm. rewrite Forall_forall in Hm.
  apply lang_marker in Hw as (c & Hc & Hcw);
    [|apply Hm; by eapply list_elem_of_lookup_2].
  assert (c ∈ replace_plus content) as Hcin.
  { rewrite Heq. apply elem_of_app. right. apply elem_of_app. by left. }
  unfold replace_plus in Hcin. apply list_elem_of_fmap in Hcin as (c' & Hc' & Hin).
  destruct (c' =? chr "+") eqn:Hplus.
  - subst c. revert Hc. by apply (bool_decide_unpack _).
  - subst c'. apply (Hclean _ Hin). unfold marker_chars in Hc. cbn in Hc.
    member_cases Hc; by apply (bool_decide_unpack _).
Qed.

End Harmless.

Lemma X10_witness :
  detect_xss ascii_only init (py "temperature sensor data 42") (py "10.0.0.1")
    (py "/search") (py "2025-01-01T00:00:00") = (init, not_detected).
Proof.
  apply (X10_text_without_markers_is_never_flagged ascii_only).
  apply Forall_forall. apply (bool_decide_unpack _). vm_compute. exact I.
Defined.

(** ** The characters of the export *)

(** A line feed or a printable ASCII character. *)
Definition plain_ascii (c : N) : Prop := c = 10 ∨ 32 ≤ c ≤ 126.

Ltac plain_list :=
  repeat first [apply Forall_nil_2 | apply Forall_cons_2];
  try (unfold plain_ascii, QUOTE, NEWLINE; cbn; lia).

Lemma hex_digit_plain d : d < 16 → plain_ascii (hex_digit d).
Proof.
  intros Hd. unfold hex_digit, plain_ascii. destruct (d <? 10) eqn:Hlt.
  - apply N.ltb_lt in Hlt. lia.
  - apply N.ltb_ge in Hlt. lia.
Qed.

Lemma u_escape_plain n : Forall plain_ascii (u_escape n).
Proof.
  unfold u_escape. apply Forall_app. split.
  - plain_list.
  - repeat first [apply Forall_nil_2 | apply Forall_cons_2];
      apply hex_digit_plain; by apply N.mod_lt.
Qed.

Lemma json_char_plain c : Forall plain_ascii (json_char c).
Proof.
  unfold json_char.
  repeat (case_match; [by plain_list|]).
  case_match eqn:Hr.
  { apply in_range_spec in Hr. apply Forall_cons_2; [|apply Forall_nil_2].
    unfold plain_ascii. lia. }
  case_match; [apply u_escape_plain|]. apply Forall_app. split; apply u_escape_plain.
Qed.

Lemma json_string_plain s : Forall plain_ascii (json_string s).
Proof.
  unfold json_string. apply Forall_app. split; [|apply Forall_app; split].
  - plain_list.
  - induction s as [|c s IH]; [apply Forall_nil_2|].
    rewrite fmap_cons. cbn [mjoin list_join]. apply Forall_app. split; [|done].
    apply json_char_plain.
  - plain_list.
Qed.

Lemma string_of_uint_plain u : Forall plain_ascii (py (NilEmpty.string_of_uint u)).
Proof.
  induction u; cbn [NilEmpty.string_of_uint]; [apply Forall_nil_2|..];
    (apply Forall_cons_2; [unfold plain_ascii; cbn; lia|done]).
Qed.

Lemma string_of_nat_plain n : Forall plain_ascii (string_of_nat n).
Proof.
  apply string_of_uint_plain.
Qed.

Lemma newline_indent_plain lvl : Forall plain_ascii (newline_indent lvl).
Proof.
  unfold newline_indent. apply Forall_cons_2; [by left|].
  apply Forall_replicate. unfold plain_ascii. cbn. lia.
Qed.

(** Induction on a JSON value, the items of an array and the values of an
    object included. *)
Fixpoint json_forall (P : json → Prop)
    (HS : ∀ s, P (JString s)) (HI : ∀ n, P (JInt n))
    (HA : ∀ l, Forall P l → P (JArray l))
    (HO : ∀ l, Forall (λ kv, P kv.2) l → P (JObject l))
    (j : json) {struct j} : P j :=
  match j with
  | JString s => HS s
  | JInt n => HI n
  | JArray l =>
      HA l ((fix go (l : list json) : Forall P l :=
               match l with
               | [] => @List.Forall_nil _ P
               | x :: l' => @List.Forall_cons _ P x l' (json_forall P HS HI HA HO x) (go l')
               end) l)
  | JObject l =>
      HO l ((fix go (l : list (pystr * json)) : Forall (λ kv, P kv.2) l :=
               match l with
               | [] => @List.Forall_nil _ (λ kv, P kv.2)
               | kv :: l' =>
                   @List.Forall_cons _ (λ kv, P kv.2) kv l' (json_forall P HS HI HA HO kv.2) (go l')
               end) l)
  end.

Lemma json_dumps_plain j : ∀ lvl, Forall plain_ascii (json_dumps lvl j).
Proof.
  apply (json_forall (λ j, ∀ lvl, Forall plain_ascii (json_dumps lvl j))).
  - intros s lvl. apply json_string_plain.
  - intros n lvl. apply string_of_nat_plain.
  - intros [|x xs] Hall lvl; cbn [json_dumps]; [plain_list|].
    apply Forall_cons in Hall as [Hx Hxs].
    repeat first [apply newline_indent_plain | apply Hx | by plain_list
                 | apply Forall_app; split].
    induction Hxs as [|y ys Hy _ IH]; [apply Forall_nil_2|].
    repeat first [apply newline_indent_plain | apply Hy | apply IH | by plain_list
                 | apply Forall_app; split].
  - intros [|[k v] ms] Hall lvl; cbn [json_dumps]; [plain_list|].
    apply Forall_cons in Hall as [Hv Hms]. cbn [snd] in Hv.
    repeat first [apply json_string_plain | apply newline_indent_plain | apply Hv
                 | by plain_list | apply Forall_app; split].
    induction Hms as [|[k' v'] ms' Hv' _ IH]; [apply Forall_nil_2|]. cbn [snd] in Hv'.
    repeat first [apply json_string_plain | apply newline_indent_plain | apply Hv'
                 | apply IH | by plain_list | apply Forall_app; split].
Qed.

(** X11: whatever the attack log holds, the text a save leaves in the
    file its path names, once the file is opened, is made of line feeds
    and printable ASCII characters only, also when the write is cut
    short: every other character of a record goes out as an escape. *)
Theorem X11_export_is_plain_ascii st filename fs io f :
  resolve fs filename = Some f →
  (∀ e, io ≠ OpenFails e) →
  ∃ text, files (save_log_to_file st filename fs io).2 !! f = Some text ∧
          Forall plain_ascii text.
Proof.
  intros Hf Hopen. destruct io as [|e|written e]; cbn [save_log_to_file snd].
  - eexists. split; [by apply write_file_lookup|]. apply json_dumps_plain.
  - by destruct (Hopen e).
  - eexists. split; [by apply write_file_lookup|].
    apply Forall_take, json_dumps_plain.
Qed.

(** No file yet, and one path that names a file. *)
Definition fs_no_files : filesystem :=
  {| files := ∅;
     resolve := λ path, if bool_decide (path = py "xss_attacks.json") then Some 0 else None |}.

Lemma X11_witness :
  ∃ text,
    files (save_log_to_file
             (run_detects ascii_only init
                [(py "<script>%C3%A9%00", py "10.0.0.1", py "/", py "2025-01-01T00:00:00")])
             (py "xss_attacks.json") fs_no_files (WriteFails 40 (py "No space left on device"))).2
      !! 0 = Some text ∧
    Forall plain_ascii text.
Proof.
  apply (X11_export_is_plain_ascii _ (py "xss_attacks.json") fs_no_files).
  - reflexivity.
  - discriminate.
Defined.

(** ** Letter case *)

(** The atoms that cannot tell the two cases of an ASCII letter apart:
    all but a negated class of a letter, which is compared as written. *)
Definition case_blind_atom (a : atom) : bool :=
  match a with
  | NotLit l => negb (is_ascii_letter l)
  | _ => true
  end.

Definition case_blind (r : regex) : bool := forallb (λ it, case_blind_atom it.1) r.

Lemma compiled_patterns_case_blind :
  Forall (λ r, case_blind r = true) compiled_patterns.
Proof. apply (bool_decide_unpack _). by vm_compute. Qed.

(** The decoder's units with the ASCII letters in lower case. *)
Definition lower_unit (u : unit8) : unit8 :=
  match u with
  | Byte b => Byte (ascii_lower b)
  | Raw c => Raw (ascii_lower c)
  end.

Definition lower_text (s : pystr) : pystr := ascii_lower <$> s.

(** A reported pattern with its matches in lower case. *)
Definition lower_matches (p : detected_pattern) : detected_pattern :=
  {| pattern_id := pattern_id p;
     pattern := pattern p;
     matches := lower_text <$> matches p |}.

Lemma ascii_lower_cases c :
  (65 ≤ c ≤ 90 ∧ ascii_lower c = c + 32) ∨ (¬ (65 ≤ c ≤ 90) ∧ ascii_lower c = c).
Proof.
  unfold ascii_lower, is_ascii_upper. destruct (in_range 65 90 c) eqn:Hr.
  - left. by apply in_range_spec in Hr.
  - right. split; [|done]. intros Hc%in_range_spec. congruence.
Qed.

Ltac bool_arith :=
  apply Bool.eq_iff_eq_true;
  rewrite ?orb_true_iff, ?andb_true_iff, ?negb_true_iff, ?in_range_spec,
    ?N.eqb_eq, ?N.eqb_neq, ?N.ltb_lt;
  lia.

Lemma ascii_lower_idemp c : ascii_lower (ascii_lower c) = ascii_lower c.
Proof.
  destruct (ascii_lower_cases c) as [[Hc Heq]|[Hc Heq]]; rewrite Heq; [|done].
  destruct (ascii_lower_cases (c + 32)) as [[Hd Heq']|[Hd Heq']]; [lia|done].
Qed.

Lemma is_ascii_letter_spec l :
  is_ascii_letter l = true ↔ 65 ≤ l ≤ 90 ∨ 97 ≤ l ≤ 122.
Proof.
  unfold is_ascii_letter, is_ascii_upper, is_ascii_lower.
  by rewrite orb_true_iff, !in_range_spec.
Qed.

Lemma eqb_lower c l :
  is_ascii_letter l = false → (ascii_lower c =? l) = (c =? l).
Proof.
  intros Hl%not_true_iff_false. rewrite is_ascii_letter_spec in Hl.
  destruct (ascii_lower_cases c) as [[Hc ->]|[Hc ->]]; [|done]. bool_arith.
Qed.

Lemma fold_extra_lower lo c : fold_extra lo (ascii_lower c) = fold_extra lo c.
Proof.
  destruct (ascii_lower_cases c) as [[Hc ->]|[Hc ->]]; [|done].
  unfold fold_extra.
  replace (c + 32 =? 0x130) with false by (symmetry; apply N.eqb_neq; lia).
  replace (c + 32 =? 0x131) with false by (symmetry; apply N.eqb_neq; lia).
  replace (c + 32 =? 0x17F) with false by (symmetry; apply N.eqb_neq; lia).
  replace (c + 32 =? 0x212A) with false by (symmetry; apply N.eqb_neq; lia).
  replace (c =? 0x130) with false by (symmetry; apply N.eqb_neq; lia).
  replace (c =? 0x131) with false by (symmetry; apply N.eqb_neq; lia).
  replace (c =? 0x17F) with false by (symmetry; apply N.eqb_neq; lia).
  by replace (c =? 0x212A) with false by (symmetry; apply N.eqb_neq; lia).
Qed.

Lemma is_space_lower c : is_space (ascii_lower c) = is_space c.
Proof.
  destruct (ascii_lower_cases c) as [[Hc ->]|[Hc ->]]; [|done].
  unfold is_space. bool_arith.
Qed.

Section LetterCase.

Variable isalnum : N → bool.

Lemma is_word_lower c : is_word isalnum (ascii_lower c) = is_word isalnum c.
Proof.
  destruct (ascii_lower_cases c) as [[Hc ->]|[Hc ->]]; [|done].
  unfold is_word.
  rewrite (proj2 (N.ltb_lt (c + 32) 128)), (proj2 (N.ltb_lt c 128)) by lia.
  unfold is_ascii_alnum, is_ascii_letter, is_ascii_upper, is_ascii_lower. bool_arith.
Qed.

Lemma atom_match_lower a c :
  case_blind_atom a = true →
  atom_match isalnum a (ascii_lower c) = atom_match isalnum a c.
Proof.
  destruct a as [l|l| | |]; cbn [case_blind_atom atom_match]; intros Ha.
  - unfold lit_match. destruct (is_ascii_letter l) eqn:Hl.
    + by rewrite ascii_lower_idemp, fold_extra_lower.
    + by apply eqb_lower.
  - apply negb_true_iff in Ha. by rewrite eqb_lower.
  - by rewrite eqb_lower.
  - apply is_word_lower.
  - apply is_space_lower.
Qed.

Section Continuation.

Variables (m : N → bool) (k : pystr → option nat).
Hypothesis Hm : ∀ c, m (ascii_lower c) = m c.
Hypothesis Hk : ∀ s, k (ascii_lower <$> s) = k s.

Lemma one_char_lower s : one_char m k (ascii_lower <$> s) = one_char m k s.
Proof. destruct s as [|c s]; [done|]. cbn. by rewrite Hm, Hk. Qed.

Lemma star_greedy_lower s : star_greedy m k (ascii_lower <$> s) = star_greedy m k s.
Proof.
  induction s as [|c s IH]; [apply (Hk [])|].
  rewrite fmap_cons. cbn [star_greedy]. rewrite Hm, IH.
  by rewrite <-fmap_cons, Hk.
Qed.

Lemma star_lazy_lower s : star_lazy m k (ascii_lower <$> s) = star_lazy m k s.
Proof.
  induction s as [|c s IH].
  - reflexivity.
  - rewrite fmap_cons. cbn [star_lazy]. rewrite <-fmap_cons, Hk, Hm. by rewrite IH.
Qed.

End Continuation.

Lemma match_here_lower r s :
  case_blind r = true →
  match_here isalnum r (ascii_lower <$> s) = match_here isalnum r s.
Proof.
  revert s. induction r as [|[a q] r IH]; intros s; [done|].
  cbn [case_blind forallb fst]. intros [Ha Hr]%andb_prop.
  pose proof (λ c, atom_match_lower a c Ha) as Hm.
  pose proof (λ s, IH s Hr) as Hk.
  destruct q; cbn [match_here].
  - by apply one_char_lower.
  - by apply star_greedy_lower.
  - by apply star_lazy_lower.
  - apply one_char_lower; [done|]. intros s'. by apply star_greedy_lower.
Qed.

Lemma findall_from_lower r skip s :
  case_blind r = true →
  findall_from isalnum r skip (ascii_lower <$> s)
  = lower_text <$> findall_from isalnum r skip s.
Proof.
  intros Hr. revert skip. induction s as [|c s IH]; intros skip; [done|].
  rewrite fmap_cons. cbn [findall_from]. destruct skip as [|skip]; [|apply IH].
  rewrite <-fmap_cons, match_here_lower by done.
  destruct (match_here isalnum r (c :: s)) as [n|]; [|apply IH].
  rewrite IH, <-fmap_take. reflexivity.
Qed.

Lemma scan_from_lower i compiled decoded :
  Forall (λ r, case_blind r = true) compiled →
  scan_from isalnum i compiled (ascii_lower <$> decoded)
  = lower_matches <$> scan_from isalnum i compiled decoded.
Proof.
  intros Hall. revert i. induction Hall as [|r rest Hr _ IH]; intros i; [done|].
  cbn [scan_from]. unfold findall. rewrite findall_from_lower, IH by done.
  destruct (findall_from isalnum r 0 decoded) as [|m ms]; [done|].
  rewrite !fmap_cons. unfold lower_matches at 2. cbn [pattern_id pattern matches].
  by rewrite <-!fmap_cons, fmap_take.
Qed.

Lemma scan_lower decoded :
  scan isalnum (ascii_lower <$> decoded) = lower_matches <$> scan isalnum decoded.
Proof. apply scan_from_lower, compiled_patterns_case_blind. Qed.

End LetterCase.

(** *** The decoding *)

Ltac range_false :=
  symmetry; apply not_true_iff_false; rewrite in_range_spec; lia.

Lemma hexval_lower h : hexval (ascii_lower h) = hexval h.
Proof.
  destruct (ascii_lower_cases h) as [[Hh ->]|[Hh ->]]; [|done].
  unfold hexval, is_ascii_digit.
  replace (in_range 48 57 (h + 32)) with false by range_false.
  replace (in_range 48 57 h) with false by range_false.
  replace (in_range 65 70 (h + 32)) with false by range_false.
  replace (in_range 97 102 h) with false by range_false.
  replace (in_range 97 102 (h + 32)) with (in_range 65 70 h) by bool_arith.
  destruct (in_range 65 70 h); [f_equal; lia|done].
Qed.

Lemma replace_plus_lower s :
  replace_plus (ascii_lower <$> s) = ascii_lower <$> replace_plus s.
Proof.
  unfold replace_plus. induction s as [|c s IH]; [done|].
  rewrite !fmap_cons, IH. f_equal.
  rewrite eqb_lower by done. by destruct (c =? chr "+").
Qed.

Lemma unit_of_char_lower c :
  lower_unit (unit_of_char (ascii_lower c)) = lower_unit (unit_of_char c).
Proof.
  unfold unit_of_char.
  destruct (ascii_lower_cases c) as [[Hc Heq]|[Hc Heq]]; [|by rewrite Heq].
  rewrite (proj2 (N.ltb_lt c 128)) by lia.
  rewrite (proj2 (N.ltb_lt (ascii_lower c) 128)) by lia.
  cbn [lower_unit]. by rewrite ascii_lower_idemp.
Qed.

Lemma unquote_units_lower s :
  lower_unit <$> unquote_units (ascii_lower <$> s) = lower_unit <$> unquote_units s.
Proof.
  remember (length s) as n eqn:Hn. revert s Hn.
  induction n as [n IH] using lt_wf_ind. intros s ->.
  destruct s as [|c t]; [done|].
  destruct (c =? chr "%") eqn:Hc.
  - apply N.eqb_eq in Hc as ->. destruct t as [|h1 [|h2 r]].
    + done.
    + change (lower_unit <$> (Byte (chr "%") :: unquote_units (ascii_lower <$> [h1]))
              = lower_unit <$> (Byte (chr "%") :: unquote_units [h1])).
      rewrite !fmap_cons. f_equal. exact (IH (length [h1]) ltac:(simpl; lia) [h1] eq_refl).
    + change (ascii_lower <$> (chr "%" :: h1 :: h2 :: r))
        with (chr "%" :: ascii_lower h1 :: ascii_lower h2 :: (ascii_lower <$> r)).
      rewrite !unquote_units_percent, !hexval_lower.
      destruct (hexval h1) as [a|]; [destruct (hexval h2) as [b|]|];
        rewrite !fmap_cons; f_equal.
      * exact (IH (length r) ltac:(simpl; lia) r eq_refl).
      * exact (IH (length (h1 :: h2 :: r)) ltac:(simpl; lia) (h1 :: h2 :: r) eq_refl).
      * exact (IH (length (h1 :: h2 :: r)) ltac:(simpl; lia) (h1 :: h2 :: r) eq_refl).
  - rewrite fmap_cons, !unquote_units_other, !fmap_cons, unit_of_char_lower; [|done|].
    + f_equal. exact (IH (length t) ltac:(simpl; lia) t eq_refl).
    + by rewrite eqb_lower.
Qed.

Lemma byte_head b :
  ((b <? 0x80) = true ∧ (ascii_lower b <? 0x80) = true)
  ∨ ((b <? 0x80) = false ∧ ascii_lower b = b).
Proof.
  destruct (ascii_lower_cases b) as [[Hb ->]|[Hb ->]].
  - left. split; apply N.ltb_lt; lia.
  - destruct (b <? 0x80) eqn:H; [by left|by right].
Qed.

Lemma byte_next b :
  is_cont (ascii_lower b) = is_cont b ∧
  (∀ b0, second_ok b0 (ascii_lower b) = second_ok b0 b) ∧
  (is_cont b = true → ascii_lower b = b) ∧
  (∀ b0, second_ok b0 b = true → ascii_lower b = b).
Proof.
  destruct (ascii_lower_cases b) as [[Hb Heq]|[Hb Heq]]; rewrite Heq; [|done].
  assert ((b <? 0x80) = true) as [Hc Hs]%ascii_not_cont by (apply N.ltb_lt; lia).
  assert ((b + 32 <? 0x80) = true) as [Hc' Hs']%ascii_not_cont by (apply N.ltb_lt; lia).
  split_and!.
  - by rewrite Hc, Hc'.
  - intros b0. by rewrite Hs, Hs'.
  - by rewrite Hc.
  - intros b0. by rewrite Hs.
Qed.

Lemma second_ok_bound b0 b1 :
  second_ok b0 b1 = true →
  0x80 ≤ b1 ∧ (b0 = 0xE0 → 0xA0 ≤ b1) ∧ (b0 = 0xF0 → 0x90 ≤ b1).
Proof.
  unfold second_ok, is_cont.
  destruct (b0 =? 0xE0) eqn:Ha;
    [|destruct (b0 =? 0xED) eqn:Hb;
      [|destruct (b0 =? 0xF0) eqn:Hc; [|destruct (b0 =? 0xF4) eqn:Hd]]];
    rewrite in_range_spec; rewrite ?N.eqb_eq, ?N.eqb_neq in *; lia.
Qed.

Ltac lower_known :=
  repeat match goal with
         | Q : ascii_lower ?b = ?b |- _ => rewrite Q
         end.

Ltac lower_leaf commit t' :=
  eapply (commit _ t');
  [ simpl; lia
  | by utf8_unfold
  | rewrite ?fmap_cons; cbn [lower_unit]; etrans; [apply utf8_replace_byte|];
    lower_known;
    repeat first
      [ match goal with
        | H : ?c = _ |- context [if ?c then _ else _] => rewrite H
        end
      | progress cbn [app] ];
    lower_known; reflexivity
  | repeat match goal with
           | H : in_range _ _ _ = true |- _ => apply in_range_spec in H
           | H : second_ok _ _ = true |- _ => apply second_ok_bound in H
           end;
    unfold REPLACEMENT, cont_bits; lia ].

Lemma utf8_replace_lower U :
  utf8_replace (lower_unit <$> U) = ascii_lower <$> utf8_replace U.
Proof.
  remember (length U) as n eqn:Hn. revert U Hn.
  induction n as [n IH] using lt_wf_ind. intros U ->.
  assert (∀ h t', (length t' < length U)%nat →
            utf8_replace U = h :: utf8_replace t' →
            utf8_replace (lower_unit <$> U) = h :: utf8_replace (lower_unit <$> t') →
            91 ≤ h →
            utf8_replace (lower_unit <$> U) = ascii_lower <$> utf8_replace U) as commit.
  { intros h t' Hlen HR HL Hh. rewrite HL, HR, fmap_cons.
    destruct (ascii_lower_cases h) as [[? _]|[_ ->]]; [lia|].
    f_equal. by apply (IH (length t')). }
  destruct U as [|[b0|c] t]; [done| |].
  2: { rewrite fmap_cons. cbn [lower_unit utf8_replace]. rewrite fmap_cons. f_equal.
       apply (IH (length t)); [simpl; lia|done]. }
  destruct (byte_head b0) as [[H0 H0']|[H0 E0]].
  { rewrite fmap_cons. cbn [lower_unit].
    rewrite (utf8_replace_byte b0), (utf8_replace_byte (ascii_lower b0)), H0, H0', fmap_cons.
    f_equal. apply (IH (length t)); [simpl; lia|done]. }
  clear IH.
  destruct (in_range 0xC2 0xDF b0) eqn:H2.
  { destruct t as [|[b1|c1] t1].
    - lower_leaf commit (@nil unit8).
    - pose proof (byte_next b1) as (C1 & _ & E1 & _).
      destruct (is_cont b1) eqn:H1.
      + pose proof (E1 eq_refl) as Q1. clear E1. lower_leaf commit t1.
      + lower_leaf commit (Byte b1 :: t1).
    - lower_leaf commit (Raw c1 :: t1). }
  destruct (in_range 0xE0 0xEF b0) eqn:H3.
  { destruct t as [|[b1|c1] t1].
    - lower_leaf commit (@nil unit8).
    - pose proof (byte_next b1) as (_ & S1 & _ & E1).
      specialize (S1 b0). specialize (E1 b0).
      destruct (second_ok b0 b1) eqn:H1.
      + pose proof (E1 eq_refl) as Q1. clear E1.
        destruct t1 as [|[b2|c2] t2].
        * lower_leaf commit (@nil unit8).
        * pose proof (byte_next b2) as (C2 & _ & E2 & _).
          destruct (is_cont b2) eqn:H4.
          -- pose proof (E2 eq_refl) as Q2. clear E2. lower_leaf commit t2.
          -- lower_leaf commit (Byte b2 :: t2).
        * lower_leaf commit (Raw c2 :: t2).
      + lower_leaf commit (Byte b1 :: t1).
    - lower_leaf commit (Raw c1 :: t1). }
  destruct (in_range 0xF0 0xF4 b0) eqn:H4.
  { destruct t as [|[b1|c1] t1].
    - lower_leaf commit (@nil unit8).
    - pose proof (byte_next b1) as (_ & S1 & _ & E1).
      specialize (S1 b0). specialize (E1 b0).
      destruct (second_ok b0 b1) eqn:H1.
      + pose proof (E1 eq_refl) as Q1. clear E1.
        destruct t1 as [|[b2|c2] t2].
        * lower_leaf commit (@nil unit8).
        * pose proof (byte_next b2) as (C2 & _ & E2 & _).
          destruct (is_cont b2) eqn:H5.
          -- pose proof (E2 eq_refl) as Q2. clear E2.
             destruct t2 as [|[b3|c3] t3].
             ++ lower_leaf commit (@nil unit8).
             ++ pose proof (byte_next b3) as (C3 & _ & E3 & _).
                destruct (is_cont b3) eqn:H6.
                ** pose proof (E3 eq_refl) as Q3. clear E3. lower_leaf commit t3.
                ** lower_leaf commit (Byte b3 :: t3).
             ++ lower_leaf commit (Raw c3 :: t3).
          -- lower_leaf commit (Byte b2 :: t2).
        * lower_leaf commit (Raw c2 :: t2).
      + lower_leaf commit (Byte b1 :: t1).
    - lower_leaf commit (Raw c1 :: t1). }
  lower_leaf commit t.
Qed.

(** The decoded text of a content taken to lower case is, up to letter
    case, the decoded text of the content. *)
Lemma decoded_content_lower content :
  ascii_lower <$> decoded_content (ascii_lower <$> content)
  = ascii_lower <$> decoded_content content.
Proof.
  rewrite ?decoded_content_eq. unfold unquote_plus.
  rewrite replace_plus_lower, !unquote_eq, <-!utf8_replace_lower.
  by rewrite unquote_units_lower.
Qed.

Lemma risk_level_ids (ps qs : list detected_pattern) :
  pattern_id <$> ps = pattern_id <$> qs →
  _calculate_risk_level ps = _calculate_risk_level qs.
Proof. unfold _calculate_risk_level. by intros ->. Qed.

Lemma lower_matches_ids (ps : list detected_pattern) :
  pattern_id <$> (lower_matches <$> ps) = pattern_id <$> ps.
Proof. induction ps as [|p ps IH]; [done|]. rewrite !fmap_cons, IH. done. Qed.

Section CaseInsensitive.

Variable isalnum : N → bool.

(** Two contents that are the same up to the case of their ASCII letters
    have the same signatures reported. *)
Lemma reported_lower c1 c2 :
  ascii_lower <$> c1 = ascii_lower <$> c2 →
  pattern_id <$> reported isalnum c1 = pattern_id <$> reported isalnum c2.
Proof.
  intros Heq. unfold reported.
  destruct c1 as [|x1 c1], c2 as [|x2 c2]; [done|done|done|].
  rewrite <-(lower_matches_ids (scan isalnum (decoded_content (x1 :: c1)))).
  rewrite <-(lower_matches_ids (scan isalnum (decoded_content (x2 :: c2)))).
  rewrite <-!scan_lower.
  rewrite <-(decoded_content_lower (x1 :: c1)), <-(decoded_content_lower (x2 :: c2)).
  by rewrite Heq.
Qed.

(** X12: the detector does not look at letter case.  Two contents that
    differ only in the case of ASCII letters, written plainly or inside
    percent escapes, get the same verdict: detected or not, the same risk
    level, the same signatures; and the calls leave the same count and hand
    the same records to the logger. *)
Theorem X12_letter_case_is_ignored st c1 c2 ip target now :
  ascii_lower <$> c1 = ascii_lower <$> c2 →
  let out1 := detect_xss isalnum st c1 ip target now in
  let out2 := detect_xss isalnum st c2 ip target now in
  detected out1.2 = detected out2.2 ∧
  risk_level out1.2 = risk_level out2.2 ∧
  pattern_id <$> patterns out1.2 = pattern_id <$> patterns out2.2 ∧
  detection_count out1.1 = detection_count out2.1 ∧
  emitted out1.1 = emitted out2.1.
Proof.
  intros Heq out1 out2. subst out1 out2.
  pose proof (reported_lower c1 c2 Heq) as Hids.
  unfold detect_xss. unfold reported in Hids.
  destruct c1 as [|x1 c1], c2 as [|x2 c2]; [done|done|done|].
  remember (scan isalnum (decoded_content (x1 :: c1))) as ps1 eqn:E1.
  remember (scan isalnum (decoded_content (x2 :: c2))) as ps2 eqn:E2.
  clear E1 E2.
  generalize (decoded_content (x1 :: c1)) (decoded_content (x2 :: c2)).
  intros d1 d2.
  assert (length ps1 = length ps2) as Hlen.
  { by rewrite <-(length_fmap pattern_id ps1), Hids, length_fmap. }
  pose proof (risk_level_ids ps1 ps2 Hids) as Hrisk.
  rewrite Hlen. case_bool_decide as Hpos; [|done].
  cbn [fst snd detected risk_level patterns detection_count emitted _log_attack].
  split_and!; [done..|].
  unfold attack_message. cbn [source_ip url ai_risk_level detected_patterns].
  by rewrite Hrisk, Hlen.
Qed.

End CaseInsensitive.

Lemma X12_witness :
  let out1 := detect_xss ascii_only init (py "<ScRiPt>ALERT%28document.COOKIE)%3c/SCRIPT>")
                (py "10.0.0.1") (py "/") (py "2025-01-01T00:00:00") in
  let out2 := detect_xss ascii_only init (py "<script>alert%28document.cookie)%3C/script>")
                (py "10.0.0.1") (py "/") (py "2025-01-01T00:00:00") in
  detected out1.2 = detected out2.2 ∧
  risk_level out1.2 = risk_level out2.2 ∧
  pattern_id <$> patterns out1.2 = pattern_id <$> patterns out2.2 ∧
  detection_count out1.1 = detection_count out2.1 ∧
  emitted out1.1 = emitted out2.1.
Proof.
  apply (X12_letter_case_is_ignored ascii_only init
           (py "<ScRiPt>ALERT%28document.COOKIE)%3c/SCRIPT>")
           (py "<script>alert%28document.cookie)%3C/script>")).
  reflexivity.
Defined.

(** * The POX controller ([pox_xss_detector.py])

    [XSSDetectorController] hands the text of the HTTP packets it is sent
    to the detector.  The model keeps the fields of the controller that the
    packets change: the detector and the two counters.  What the
    controller hands to POX's own logger and the file that
    [_log_attack_to_file] appends to are written after these fields are
    set and are read by nothing here; they are not part of the state. *)

(** ** The methods of [str] the controller calls *)

(** [s.startswith(p)]. *)
Fixpoint str_startswith (s p : pystr) : bool :=
  match p with
  | [] => true
  | x :: p' =>
      match s with
      | y :: s' => (y =? x) && str_startswith s' p'
      | [] => false
      end
  end.

(** [s.find(sub)], [None] standing for -1. *)
Fixpoint str_find (sub s : pystr) : option nat :=
  if str_startswith s sub then Some 0%nat
  else match s with
       | [] => None
       | _ :: s' => S <$> str_find sub s'
       end.

(** [sub in s]. *)
Definition str_contains (sub s : pystr) : bool :=
  match str_find sub s with
  | Some _ => true
  | None => false
  end.

(** [s.split(sep)] for a separator of one character or more: the pieces
    between the occurrences of [sep], found from left to right, none
    overlapping another.  [skip] counts the characters of the last
    separator still to pass, [cur] holds the piece being read, last
    character first. *)
Fixpoint split_from (sep : pystr) (skip : nat) (cur s : pystr) : list pystr :=
  match s with
  | [] => [reverse cur]
  | c :: s' =>
      match skip with
      | S k => split_from sep k cur s'
      | O =>
          if str_startswith s sep
          then reverse cur :: split_from sep (length sep - 1) [] s'
          else split_from sep 0 (c :: cur) s'
      end
  end.

Definition str_split (sep s : pystr) : list pystr := split_from sep 0 [] s.

(** [s.split(sep, 1)]. *)
Definition str_split_once (sep s : pystr) : list pystr :=
  match str_find sep s with
  | Some i => [take i s; drop (i + length sep) s]
  | None => [s]
  end.

Fixpoint str_lstrip (s : pystr) : pystr :=
  match s with
  | c :: s' => if is_space c then str_lstrip s' else s
  | [] => []
  end.

(** [s.strip()]. *)
Definition str_strip (s : pystr) : pystr :=
  reverse (str_lstrip (reverse (str_lstrip s))).

(** [d[k] = v] on a dictionary kept in the order of insertion. *)
Fixpoint dict_set (k v : pystr) (d : list (pystr * pystr)) : list (pystr * pystr) :=
  match d with
  | [] => [(k, v)]
  | (k', v') :: d' =>
      if bool_decide (k' = k) then (k', v) :: d' else (k', v') :: dict_set k v d'
  end.

(** ** The controller *)

(** The separators are written in the source with two backslashes: they
    are the characters backslash and [n], and backslash, [r], backslash,
    [n] twice, not control characters. *)
Definition LINE_SEP : pystr := py "\n".
Definition BODY_SEP : pystr := py "\r\n\r\n".

Definition request_methods : list pystr :=
  [py "GET "; py "POST "; py "PUT "; py "DELETE "; py "HEAD "; py "OPTIONS "].

Definition http_ports : list N := [80; 8080; 8000; 3000; 5000].

(** The loop over [lines[1:]] of [_analyze_http_request]. *)
Fixpoint parse_lines (lines : list pystr) (headers : list (pystr * pystr))
    (body : pystr) (body_start : bool) : list (pystr * pystr) * pystr :=
  match lines with
  | [] => (headers, body)
  | line :: rest =>
      if body_start then parse_lines rest headers (body ++ line ++ LINE_SEP) true
      else match str_strip line with
           | [] => parse_lines rest headers body true
           | _ =>
               if str_contains (py ":") line then
                 match str_split_once (py ":") line with
                 | [name; value] =>
                     parse_lines rest (dict_set (str_strip name) (str_strip value) headers)
                       body false
                 | _ => parse_lines rest headers body false
                 end
               else parse_lines rest headers body false
           end
  end.

(** The fields of the controller that its packets change. *)
Record controller : Type := {
  xss_detector : state;
  packets_analyzed : nat;
  xss_detected : nat
}.

(** [XSSDetectorController.__init__]. *)
Definition controller_init : controller :=
  {| xss_detector := init; packets_analyzed := 0; xss_detected := 0 |}.

(** What [_handle_PacketIn] reads of its event.  [pkt_payload] is [None]
    for a payload that counts as false and for one that no text is got
    from, and else the text [str(payload)]; the two addresses are the
    texts [str] gives for them; [pkt_clock k] is the time the detector
    reads at its [k]-th scan of the event. *)
Record packet_in : Type := {
  pkt_parsed : bool;           (* packet.parsed *)
  pkt_is_ip : bool;            (* packet.type == ethernet.IP_TYPE *)
  pkt_is_tcp : bool;           (* ip_packet.protocol == ipv4.TCP_PROTOCOL *)
  pkt_srcport : N;
  pkt_dstport : N;
  pkt_payload : option pystr;
  pkt_srcip : pystr;
  pkt_dstip : pystr;
  pkt_clock : nat → pystr
}.

Section Controller.

Variable unicode_isalnum : N → bool.

(** The detector after a scan, and [self.xss_detected += 1] on a
    detection. *)
Definition count_detection (ctl : controller) (st' : state) (hit : bool) : controller :=
  {| xss_detector := st';
     packets_analyzed := packets_analyzed ctl;
     xss_detected := if hit then (xss_detected ctl + 1)%nat else xss_detected ctl |}.

(** [XSSDetectorController._analyze_http_request]. *)
Definition _analyze_http_request (ctl : controller) (clock : nat → pystr)
    (source_ip http_data : pystr) : controller :=
  match str_split LINE_SEP http_data with
  | [] => ctl
  | request_line :: rest =>
      match str_split (py " ") request_line with
      | method :: url :: _ :: _ =>
          let '(headers, body) := parse_lines rest [] [] false in
          let '(st', v) :=
            analyze_http_request unicode_isalnum (xss_detector ctl) clock
              method url headers body source_ip in
          count_detection ctl st' (v_detected v)
      | _ => ctl
      end
  end.

(** [XSSDetectorController._analyze_http_response]. *)
Definition _analyze_http_response (ctl : controller) (clock : nat → pystr)
    (source_ip http_data : pystr) : controller :=
  match str_find BODY_SEP http_data with
  | Some body_start =>
      let body := drop (body_start + 4) http_data in
      let '(st', r) :=
        detect_xss unicode_isalnum (xss_detector ctl) body source_ip (py "response")
          (clock 0%nat) in
      count_detection ctl st' (detected r)
  | None => ctl
  end.

(** [XSSDetectorController._analyze_http_packet]. *)
Definition _analyze_http_packet (ctl : controller) (p : packet_in) : controller :=
  match pkt_payload p with
  | None => ctl
  | Some http_data =>
      if (length http_data <? 10)%nat then ctl
      else if existsb (str_startswith http_data) request_methods then
        _analyze_http_request ctl (pkt_clock p) (pkt_srcip p) http_data
      else if str_contains (py "HTTP/") http_data then
        _analyze_http_response ctl (pkt_clock p) (pkt_dstip p) http_data
      else ctl
  end.

(** [XSSDetectorController._handle_PacketIn]. *)
Definition _handle_PacketIn (ctl : controller) (p : packet_in) : controller :=
  if negb (pkt_parsed p) then ctl
  else if negb (pkt_is_ip p) then ctl
  else if negb (pkt_is_tcp p) then ctl
  else
    let ctl' :=
      if bool_decide (pkt_dstport p ∈ http_ports) || bool_decide (pkt_srcport p ∈ http_ports)
      then _analyze_http_packet ctl p
      else ctl in
    {| xss_detector := xss_detector ctl';
       packets_analyzed := packets_analyzed ctl' + 1;
       xss_detected := xss_detected ctl' |}.

(** The scan of a URL alone, as a request without headers and body gets
    it. *)
Definition url_scan (ctl : controller) (clock : nat → pystr) (source_ip url : pystr)
  : controller :=
  let out := detect_xss unicode_isalnum (xss_detector ctl) url source_ip url (clock 0%nat) in
  count_detection ctl out.1 (detected out.2).

End Controller.

(** The packets that are counted, and those whose text is looked at. *)
Definition counted (p : packet_in) : bool :=
  pkt_parsed p && pkt_is_ip p && pkt_is_tcp p.

Definition looked_at (p : packet_in) : bool :=
  counted p
  && (bool_decide (pkt_dstport p ∈ http_ports) || bool_decide (pkt_srcport p ∈ http_ports))
  && match pkt_payload p with
     | Some http_data => negb (length http_data <? 10)%nat
     | None => false
     end.

Lemma str_startswith_absent c sep (s : pystr) :
  c ∉ s → str_startswith s (c :: sep) = false.
Proof.
  destruct s as [|y s]; [done|]. intros [Hy _]%not_elem_of_cons.
  cbn [str_startswith]. by rewrite (proj2 (N.eqb_neq y c)).
Qed.

Lemma str_find_absent c sep (s : pystr) : c ∉ s → str_find (c :: sep) s = None.
Proof.
  induction s as [|y s IH]; intros Hc.
  - done.
  - cbn [str_find]. rewrite str_startswith_absent by done.
    apply not_elem_of_cons in Hc as [_ Hc]. by rewrite IH.
Qed.

Lemma split_from_absent c sep (cur s : pystr) :
  c ∉ s → split_from (c :: sep) 0 cur s = [reverse cur ++ s].
Proof.
  revert cur. induction s as [|y s IH]; intros cur Hc.
  - cbn [split_from]. by rewrite app_nil_r.
  - cbn [split_from]. rewrite str_startswith_absent by done.
    apply not_elem_of_cons in Hc as [_ Hc].
    by rewrite IH, reverse_cons, <-(assoc_L (++)).
Qed.

Section ControllerFacts.

Variable isalnum : N → bool.

Lemma analyze_url_only st clock method url source_ip :
  let v := analyze_http_request isalnum st clock method url [] [] source_ip in
  let out := detect_xss isalnum st url source_ip url (clock 0%nat) in
  v.1 = out.1 ∧ v_detected v.2 = detected out.2.
Proof.
  unfold analyze_http_request, inspect. cbn [inspect_headers].
  destruct (detect_xss isalnum st url source_ip url (clock 0%nat)) as [st' r].
  cbn [fst snd]. by destruct (detected r).
Qed.

(** X13: a packet whose text holds no backslash, as a request or a
    response with its line breaks as control characters does, has one part
    looked at at most: when the text has ten characters or more and starts
    with a method and a space, the second of its pieces between spaces is
    scanned as the URL of a request without headers and body, if there are
    three pieces; its headers and its body are never scanned, and a
    response is not scanned at all. *)
Theorem X13_only_url_scanned_without_backslash ctl p text :
  pkt_payload p = Some text →
  chr "\" ∉ text →
  _analyze_http_packet isalnum ctl p
  = if (length text <? 10)%nat || negb (existsb (str_startswith text) request_methods)
    then ctl
    else match str_split (py " ") text with
         | _ :: url :: _ :: _ => url_scan isalnum ctl (pkt_clock p) (pkt_srcip p) url
         | _ => ctl
         end.
Proof.
  intros Hpay Hno. unfold _analyze_http_packet. rewrite Hpay.
  destruct (length text <? 10)%nat; [done|]. cbn [orb].
  destruct (existsb (str_startswith text) request_methods); cbn [negb].
  - unfold _analyze_http_request, str_split at 1.
    change LINE_SEP with (chr "\" :: [chr "n"]).
    rewrite split_from_absent by done. cbn [reverse app].
    change (reverse [] ++ text) with text.
    destruct (str_split (py " ") text) as [|method [|url [|version rest]]]; try done.
    cbn [parse_lines]. unfold url_scan.
    destruct (analyze_url_only (xss_detector ctl) (pkt_clock p) method url (pkt_srcip p))
      as [Hst Hdet].
    destruct (analyze_http_request isalnum (xss_detector ctl) (pkt_clock p) method url
                [] [] (pkt_srcip p)) as [st' v].
    cbn [fst snd] in Hst, Hdet. by rewrite Hst, Hdet.
  - destruct (str_contains (py "HTTP/") text); [|done].
    unfold _analyze_http_response. change BODY_SEP with (chr "\" :: py "r\n\r\n").
    by rewrite str_find_absent.
Qed.

(** What a packet can do to the controller when its text is looked at. *)
Definition packet_effect (ctl ctl' : controller) : Prop :=
  packets_analyzed ctl' = packets_analyzed ctl ∧
  (detector_inv (xss_detector ctl) → detector_inv (xss_detector ctl')) ∧
  ∃ d, (d ≤ 1)%nat ∧
       xss_detected ctl' = (xss_detected ctl + d)%nat ∧
       (detection_count (xss_detector ctl) + d
        ≤ detection_count (xss_detector ctl'))%nat.

Lemma packet_effect_refl ctl : packet_effect ctl ctl.
Proof. split_and!; [done..|]. exists 0%nat. lia. Qed.

Lemma request_effect ctl clock source_ip http_data :
  packet_effect ctl (_analyze_http_request isalnum ctl clock source_ip http_data).
Proof.
  unfold _analyze_http_request.
  destruct (str_split LINE_SEP http_data) as [|request_line rest];
    [apply packet_effect_refl|].
  destruct (str_split (py " ") request_line) as [|method [|url [|version more]]];
    try apply packet_effect_refl.
  destruct (parse_lines rest [] [] false) as [headers body].
  pose proof (analyze_progress_ok isalnum (xss_detector ctl) clock method url headers body
                source_ip) as (k & (_ & Hcount & _) & _ & Hdet).
  pose proof (detector_inv_analyze isalnum (xss_detector ctl) clock method url headers body
                source_ip) as Hinv.
  destruct (analyze_http_request isalnum (xss_detector ctl) clock method url headers body
              source_ip) as [st' v].
  cbn [fst snd] in Hcount, Hdet, Hinv. unfold packet_effect, count_detection.
  cbn [xss_detector packets_analyzed xss_detected]. split_and!; [done..|].
  rewrite Hdet, Hcount. case_bool_decide.
  - exists 1%nat. lia.
  - exists 0%nat. lia.
Qed.

Lemma response_effect ctl clock source_ip http_data :
  packet_effect ctl (_analyze_http_response isalnum ctl clock source_ip http_data).
Proof.
  unfold _analyze_http_response.
  destruct (str_find BODY_SEP http_data) as [body_start|]; [|apply packet_effect_refl].
  pose proof (detect_xss_effect isalnum (xss_detector ctl) (drop (body_start + 4) http_data)
                source_ip (py "response") (clock 0%nat)) as Heff.
  pose proof (detector_inv_detect isalnum (xss_detector ctl)
                (drop (body_start + 4) http_data) source_ip (py "response") (clock 0%nat))
    as Hinv.
  destruct (detect_xss isalnum (xss_detector ctl) (drop (body_start + 4) http_data)
              source_ip (py "response") (clock 0%nat)) as [st' r].
  cbn [fst snd] in Heff, Hinv. unfold packet_effect, count_detection.
  cbn [xss_detector packets_analyzed xss_detected]. split_and!; [done..|].
  destruct (res_attack_info r).
  - destruct Heff as (-> & _ & Hcount & _). exists 1%nat. lia.
  - destruct Heff as (-> & ->). exists 0%nat. lia.
Qed.

Lemma packet_effect_packet ctl p :
  packet_effect ctl (_analyze_http_packet isalnum ctl p).
Proof.
  unfold _analyze_http_packet.
  destruct (pkt_payload p) as [http_data|]; [|apply packet_effect_refl].
  destruct (length http_data <? 10)%nat; [apply packet_effect_refl|].
  destruct (existsb _ _); [apply request_effect|].
  destruct (str_contains _ _); [apply response_effect|apply packet_effect_refl].
Qed.

Lemma handle_PacketIn_effect ctl p :
  let ctl' := _handle_PacketIn isalnum ctl p in
  packets_analyzed ctl'
  = (packets_analyzed ctl + if counted p then 1 else 0)%nat ∧
  (detector_inv (xss_detector ctl) → detector_inv (xss_detector ctl')) ∧
  ∃ d, (d ≤ if looked_at p then 1 else 0)%nat ∧
       xss_detected ctl' = (xss_detected ctl + d)%nat ∧
       (detection_count (xss_detector ctl) + d
        ≤ detection_count (xss_detector ctl'))%nat.
Proof.
  unfold _handle_PacketIn, looked_at, counted.
  destruct (pkt_parsed p); cbn [negb andb];
    [|split_and!; [lia|done|exists 0%nat; lia]].
  destruct (pkt_is_ip p); cbn [negb andb];
    [|split_and!; [lia|done|exists 0%nat; lia]].
  destruct (pkt_is_tcp p); cbn [negb andb];
    [|split_and!; [lia|done|exists 0%nat; lia]].
  destruct (bool_decide (pkt_dstport p ∈ http_ports)
            || bool_decide (pkt_srcport p ∈ http_ports));
    cbn [xss_detector packets_analyzed xss_detected andb];
    [|split_and!; [lia|done|exists 0%nat; lia]].
  pose proof (packet_effect_packet ctl p) as (Hn & Hinv & d & Hd & Hx & Hc).
  split_and!; [lia|done|]. exists d. split_and!; [|done..].
  unfold _analyze_http_packet in Hx.
  destruct (pkt_payload p) as [http_data|]; [|lia].
  destruct (length http_data <? 10)%nat; cbn [negb]; lia.
Qed.

(** X14: after [__init__] and any sequence of packets, [packets_analyzed]
    is the number of parsed TCP packets among them; [xss_detected] is at
    most the number of those on an HTTP port whose text has ten characters
    or more, hence at most [packets_analyzed], and at most the detector's
    count of detections, which is the length of its attack log. *)
Theorem X14_controller_counters (events : list packet_in) :
  let ctl := foldl (_handle_PacketIn isalnum) controller_init events in
  packets_analyzed ctl = length (filter (λ p, counted p = true) events) ∧
  (xss_detected ctl ≤ length (filter (λ p, looked_at p = true) events))%nat ∧
  (xss_detected ctl ≤ packets_analyzed ctl)%nat ∧
  (xss_detected ctl ≤ detection_count (xss_detector ctl))%nat ∧
  detection_count (xss_detector ctl) = length (attack_log (xss_detector ctl)).
Proof.
  cbn zeta.
  assert (∀ ctl,
    let ctl' := foldl (_handle_PacketIn isalnum) ctl events in
    packets_analyzed ctl'
    = (packets_analyzed ctl + length (filter (λ p, counted p = true) events))%nat ∧
    (xss_detected ctl'
     ≤ xss_detected ctl + length (filter (λ p, looked_at p = true) events))%nat ∧
    (detection_count (xss_detector ctl) + (xss_detected ctl' - xss_detected ctl)
     ≤ detection_count (xss_detector ctl'))%nat ∧
    (xss_detected ctl ≤ xss_detected ctl')%nat ∧
    (detector_inv (xss_detector ctl) → detector_inv (xss_detector ctl'))) as Hgen.
  { induction events as [|p events IH]; intros ctl; cbn zeta.
    - cbn [foldl filter length]. rewrite filter_nil. cbn [length]. split_and!; [lia..|done].
    - cbn [foldl]. rewrite !filter_cons.
      destruct (IH (_handle_PacketIn isalnum ctl p)) as (Hn & Hx & Hc & Hm & Hinv).
      destruct (handle_PacketIn_effect ctl p) as (Hn1 & Hinv1 & d & Hd & Hx1 & Hc1).
      cbn zeta in *.
      split_and!.
      + rewrite Hn, Hn1. destruct (counted p); [rewrite decide_True by done|
          rewrite decide_False by done]; cbn [length]; lia.
      + destruct (looked_at p); [rewrite decide_True by done|
          rewrite decide_False by done]; cbn [length]; lia.
      + lia.
      + lia.
      + auto. }
  destruct (Hgen controller_init) as (Hn & Hx & Hc & _ & Hinv). cbn zeta in *.
  cbn [packets_analyzed xss_detected xss_detector controller_init] in *.
  destruct (Hinv (detector_inv_init)) as (Hlog & _).
  assert (length (filter (λ p, looked_at p = true) events)
          ≤ length (filter (λ p, counted p = true) events))%nat as Hsub.
  { clear. induction events as [|p events IH]; [done|]. rewrite !filter_cons.
    assert (looked_at p = true → counted p = true) as Himp.
    { unfold looked_at. by intros [[? _]%andb_prop _]%andb_prop. }
    repeat case_decide; cbn [length]; try lia. exfalso. auto. }
  split_and!; [lia|lia|lia| |done].
  change (detection_count init) with 0%nat in Hc. lia.
Qed.

End ControllerFacts.

Definition CRLF : pystr := [13; 10].

(** A request as it is on the wire, with a script in a header and in the
    body. *)
Definition post_with_script : packet_in :=
  {| pkt_parsed := true; pkt_is_ip := true; pkt_is_tcp := true;
     pkt_srcport := 51000; pkt_dstport := 80;
     pkt_payload :=
       Some (py "POST /api/data HTTP/1.1" ++ CRLF
             ++ py "User-Agent: <script>alert(1)</script>" ++ CRLF ++ CRLF
             ++ py "note=<script>alert(1)</script>");
     pkt_srcip := py "10.0.0.5"; pkt_dstip := py "10.0.0.1";
     pkt_clock := λ _, py "2025-01-01T00:00:00" |}.

Lemma X13_witness :
  _analyze_http_packet ascii_only controller_init post_with_script = controller_init.
Proof.
  etrans.
  - apply (X13_only_url_scanned_without_backslash ascii_only controller_init
             post_with_script _ eq_refl).
    apply (bool_decide_unpack _). vm_compute. exact I.
  - vm_compute. reflexivity.
Defined.

(** * Encoded payloads ([test_xss_attacks.py])

    [test_web_server_attacks] sends every payload through
    [urllib.parse.quote_plus] before it puts it in a URL. *)

(** The code points [str.encode] takes: all but the surrogates.  There
    is no character from U+110000 on. *)
Definition is_scalar (c : N) : bool :=
  (c <? 0xD800) || ((0xDFFF <? c) && (c <? 0x110000)).

(** The bytes of one character in UTF-8. *)
Definition utf8_encode (c : N) : list N :=
  if c <? 0x80 then [c]
  else if c <? 0x800 then [0xC0 + c / 64; 0x80 + c mod 64]
  else if c <? 0x10000 then
    [0xE0 + c / 4096; 0x80 + (c / 64) mod 64; 0x80 + c mod 64]
  else
    [0xF0 + c / 262144; 0x80 + (c / 4096) mod 64; 0x80 + (c / 64) mod 64;
     0x80 + c mod 64].

(** [s.encode('utf-8', 'strict')], [None] standing for the
    [UnicodeEncodeError] a surrogate raises. *)
Definition str_encode (s : pystr) : option (list N) :=
  if forallb is_scalar s then Some (mjoin (utf8_encode <$> s)) else None.

(** The bytes [quote] never escapes. *)
Definition always_safe (b : N) : bool :=
  is_ascii_alnum b || bool_decide (b ∈ py "_.-~").

Definition upper_hex (d : N) : N := if d <? 10 then 48 + d else 55 + d.

Definition quote_byte (safe : pystr) (b : N) : pystr :=
  if always_safe b || bool_decide (b ∈ safe) then [b]
  else [chr "%"; upper_hex (b / 16); upper_hex (b mod 16)].

(** [urllib.parse.quote(s, safe)] for a [safe] of ASCII characters. *)
Definition quote (safe s : pystr) : option pystr :=
  match s with
  | [] => Some []
  | _ => bytes ← str_encode s; Some (mjoin (quote_byte safe <$> bytes))
  end.

(** [urllib.parse.quote_plus(s)]. *)
Definition quote_plus (s : pystr) : option pystr :=
  if bool_decide (chr " " ∈ s)
  then (fmap (M:=list) (λ c, if c =? chr " " then chr "+" else c)) <$> quote (py " ") s
  else quote [] s.

Lemma mjoin_cons {A} (x : list A) (l : list (list A)) : mjoin (x :: l) = x ++ mjoin l.
Proof. done. Qed.

Lemma utf8_digits c :
  c = 64 * (c / 64) + c mod 64 ∧ c mod 64 < 64 ∧
  c / 64 = 64 * (c / 4096) + (c / 64) mod 64 ∧ (c / 64) mod 64 < 64 ∧
  c / 4096 = 64 * (c / 262144) + (c / 4096) mod 64 ∧ (c / 4096) mod 64 < 64.
Proof.
  assert (c / 4096 = c / 64 / 64) as E1 by (by rewrite N.Div0.div_div).
  assert (c / 262144 = c / 4096 / 64) as E2 by (by rewrite N.Div0.div_div).
  rewrite E2, E1. split_and!;
    first [ by apply N.mod_lt | apply N.div_mod' ].
Qed.

Ltac cond_spec :=
  repeat first [ rewrite andb_true_iff | rewrite orb_true_iff | rewrite in_range_spec
               | rewrite N.ltb_lt | rewrite N.eqb_eq ].

Ltac settle_conds :=
  repeat first
    [ progress cbv beta match
    | match goal with
      | |- context [if ?c then _ else _] =>
          first [ replace c with true by (symmetry; cond_spec; lia)
                | replace c with false
                    by (symmetry; apply not_true_iff_false; cond_spec; lia) ]
      end
    | match goal with
      | |- context [if ?a =? ?b then _ else _] =>
          let H := fresh "H" in
          destruct (a =? b) eqn:H; [apply N.eqb_eq in H|apply N.eqb_neq in H]
      end ].

(** The quotients and remainders of [utf8_digits], as numbers of their
    own. *)
Ltac name_digits c :=
  generalize dependent ((c / 4096) mod 64); intros ?;
  generalize dependent ((c / 64) mod 64); intros ?;
  generalize dependent (c mod 64); intros ?;
  generalize dependent (c / 262144); intros ?;
  generalize dependent (c / 4096); intros ?;
  generalize dependent (c / 64); intros ?; intros.

Lemma utf8_replace_encode c t :
  is_scalar c = true →
  utf8_replace ((Byte <$> utf8_encode c) ++ t) = c :: utf8_replace t.
Proof.
  intros Hc. unfold is_scalar in Hc. revert Hc. cond_spec. intros Hc.
  destruct (utf8_digits c) as (D0 & R0 & D1 & R1 & D2 & R2).
  unfold utf8_encode.
  destruct (c <? 0x80) eqn:H1; [|destruct (c <? 0x800) eqn:H2;
                                  [|destruct (c <? 0x10000) eqn:H3]];
    rewrite ?N.ltb_lt, ?N.ltb_ge in *;
    cbn [fmap list_fmap app]; rewrite utf8_replace_byte;
    unfold second_ok, is_cont, cont_bits; name_digits c; settle_conds; f_equal; lia.
Qed.

Lemma utf8_replace_encode_all s :
  forallb is_scalar s = true →
  utf8_replace (Byte <$> mjoin (utf8_encode <$> s)) = s.
Proof.
  induction s as [|c s IH]; [done|]. cbn [forallb]. intros [Hc Hs]%andb_prop.
  rewrite fmap_cons, mjoin_cons, fmap_app, utf8_replace_encode by done.
  by rewrite IH.
Qed.

Lemma utf8_encode_bytes c :
  is_scalar c = true → Forall (λ b, b < 256) (utf8_encode c).
Proof.
  intros Hc. unfold is_scalar in Hc. revert Hc. cond_spec. intros Hc.
  destruct (utf8_digits c) as (D0 & R0 & D1 & R1 & D2 & R2).
  unfold utf8_encode.
  destruct (c <? 0x80) eqn:H1; [|destruct (c <? 0x800) eqn:H2;
                                  [|destruct (c <? 0x10000) eqn:H3]];
    rewrite ?N.ltb_lt, ?N.ltb_ge in *; name_digits c;
    repeat first [apply Forall_nil_2 | apply Forall_cons_2]; lia.
Qed.

Lemma str_encode_bytes s bytes :
  str_encode s = Some bytes → Forall (λ b, b < 256) bytes.
Proof.
  unfold str_encode. destruct (forallb is_scalar s) eqn:Hs; [|done].
  intros [= <-]. induction s as [|c s IH]; [constructor|].
  cbn [forallb] in Hs. apply andb_prop in Hs as [Hc Hs].
  rewrite fmap_cons, mjoin_cons. apply Forall_app.
  split; [by apply utf8_encode_bytes|by apply IH].
Qed.

Lemma hexval_upper_hex d : d < 16 → hexval (upper_hex d) = Some d.
Proof.
  intros Hd. unfold upper_hex, hexval, is_ascii_digit.
  destruct (d <? 10) eqn:Hlt; rewrite ?N.ltb_lt, ?N.ltb_ge in Hlt.
  - replace (in_range 48 57 (48 + d)) with true by (symmetry; cond_spec; lia).
    f_equal. lia.
  - replace (in_range 48 57 (55 + d)) with false
      by (symmetry; apply not_true_iff_false; cond_spec; lia).
    replace (in_range 65 70 (55 + d)) with true by (symmetry; cond_spec; lia).
    f_equal. lia.
Qed.

Lemma always_safe_spec b :
  always_safe b = true → b < 128 ∧ b ≠ chr "%" ∧ b ≠ chr "+" ∧ b ≠ chr " ".
Proof.
  unfold always_safe, is_ascii_alnum, is_ascii_letter, is_ascii_upper, is_ascii_lower,
    is_ascii_digit.
  intros [Hb|Hb%bool_decide_eq_true]%orb_prop.
  - revert Hb. cond_spec. cbn. lia.
  - cbn in Hb. member_cases Hb; cbn; lia.
Qed.

Section Quoting.

(** The characters left as they are on top of the safe ones: none, or
    the space. *)
Variable safe : pystr.
Hypothesis safe_ok : Forall (λ c, c < 128 ∧ c ≠ chr "%" ∧ c ≠ chr "+") safe.

Lemma kept_spec b :
  always_safe b || bool_decide (b ∈ safe) = true →
  b < 128 ∧ b ≠ chr "%" ∧ b ≠ chr "+".
Proof.
  intros [Hb|Hb%bool_decide_eq_true]%orb_prop.
  - apply always_safe_spec in Hb. tauto.
  - rewrite Forall_forall in safe_ok. by apply safe_ok.
Qed.

Lemma unquote_units_quoted bytes rest :
  Forall (λ b, b < 256) bytes →
  unquote_units (mjoin (quote_byte safe <$> bytes) ++ rest)
  = (Byte <$> bytes) ++ unquote_units rest.
Proof.
  induction 1 as [|b bytes Hb _ IH]; [done|].
  rewrite !fmap_cons, mjoin_cons, <-(assoc_L (++)).
  unfold quote_byte at 1.
  destruct (always_safe b || bool_decide (b ∈ safe)) eqn:Hk.
  - apply kept_spec in Hk as (Hlt & Hne & _). cbn [app].
    rewrite unquote_units_other by (by apply N.eqb_neq).
    unfold unit_of_char. rewrite (proj2 (N.ltb_lt b 128)) by done.
    by rewrite IH.
  - cbn [app]. rewrite unquote_units_percent.
    rewrite !hexval_upper_hex;
      [|by apply N.mod_lt|apply N.Div0.div_lt_upper_bound; lia].
    rewrite IH. cbn [app]. do 2 f_equal. symmetry. apply N.div_mod'.
Qed.

Lemma quoted_no_plus bytes : chr "+" ∉ mjoin (quote_byte safe <$> bytes).
Proof.
  induction bytes as [|b bytes IH]; [by intros ?%elem_of_nil|].
  rewrite fmap_cons, mjoin_cons, elem_of_app.
  intros [Hin|Hin]; [|done]. unfold quote_byte in Hin.
  destruct (always_safe b || bool_decide (b ∈ safe)) eqn:Hk.
  - apply kept_spec in Hk as (_ & _ & Hne). by apply list_elem_of_singleton in Hin.
  - assert (∀ d, upper_hex d ≠ chr "+") as Hhex.
    { intros d. unfold upper_hex. destruct (d <? 10); cbn; lia. }
    apply elem_of_cons in Hin as [Heq|Hin]; [by vm_compute in Heq|].
    apply elem_of_cons in Hin as [Heq|Hin]; [symmetry in Heq; by apply Hhex in Heq|].
    apply elem_of_cons in Hin as [Heq|Hin]; [symmetry in Heq; by apply Hhex in Heq|].
    by apply elem_of_nil in Hin.
Qed.

End Quoting.

Lemma replace_plus_id (x : pystr) : chr "+" ∉ x → replace_plus x = x.
Proof.
  unfold replace_plus. induction x as [|c x IH]; [done|].
  intros [Hc Hx]%not_elem_of_cons. rewrite fmap_cons, IH by done.
  by rewrite (proj2 (N.eqb_neq c (chr "+"))) by done.
Qed.

Lemma replace_plus_space (x : pystr) :
  chr "+" ∉ x →
  replace_plus ((λ c, if c =? chr " " then chr "+" else c) <$> x) = x.
Proof.
  unfold replace_plus. induction x as [|c x IH]; [done|].
  intros [Hc Hx]%not_elem_of_cons. rewrite !fmap_cons, IH by done. f_equal.
  destruct (c =? chr " ") eqn:Hsp.
  - apply N.eqb_eq in Hsp as ->. done.
  - by rewrite (proj2 (N.eqb_neq c (chr "+"))) by done.
Qed.

Lemma decoded_quoted s q : quote_plus s = Some q → decoded_content q = s.
Proof.
  rewrite decoded_content_eq. unfold quote_plus, quote, unquote_plus.
  rewrite unquote_eq. destruct s as [|c s]; [by intros [= <-]|].
  destruct (str_encode (c :: s)) as [bytes|] eqn:Henc; [|by case_bool_decide].
  assert (utf8_replace (Byte <$> bytes) = c :: s) as Hdec.
  { unfold str_encode in Henc. destruct (forallb is_scalar (c :: s)) eqn:Hs; [|done].
    injection Henc as <-. exact (utf8_replace_encode_all (c :: s) Hs). }
  pose proof (str_encode_bytes _ _ Henc) as Hbytes.
  case_bool_decide; cbn [mbind option_bind fmap option_fmap option_map]; intros [= <-].
  - rewrite replace_plus_space.
    2: { apply quoted_no_plus. by repeat constructor. }
    rewrite <-(app_nil_r (mjoin _)), unquote_units_quoted; [|by repeat constructor|done].
    by rewrite app_nil_r.
  - rewrite replace_plus_id.
    2: { apply quoted_no_plus. constructor. }
    rewrite <-(app_nil_r (mjoin _)), unquote_units_quoted; [|constructor|done].
    by rewrite app_nil_r.
Qed.

Section Encoded.

Variable isalnum : N → bool.

Lemma scan_from_nil i compiled : scan_from isalnum i compiled [] = [].
Proof. revert i. induction compiled as [|r rest IH]; intros i; [done|]. cbn. apply IH. Qed.

(** X15: encoding a payload for a URL does not hide it.  When
    [quote_plus] returns, which it does for every text without a
    surrogate, the decoding of [detect_xss] gives the payload back as it
    was, character for character, so that the call reports what a scan of
    the payload itself finds. *)
Theorem X15_quote_plus_is_undone s q st source_ip url now :
  quote_plus s = Some q →
  decoded_content q = s ∧
  patterns (detect_xss isalnum st q source_ip url now).2 = scan isalnum s.
Proof.
  intros Hq. pose proof (decoded_quoted s q Hq) as Hdec. split; [done|].
  rewrite detect_xss_patterns. unfold reported. rewrite Hdec.
  destruct q; [|done]. rewrite <-Hdec. symmetry. apply scan_from_nil.
Qed.

End Encoded.

Definition encoded_payload : pystr :=
  py "<script>alert(1) " ++ [0xE9; 0x1F4A5] ++ py "</script>".

Lemma X15_witness :
  decoded_content (py "%3Cscript%3Ealert%281%29+%C3%A9%F0%9F%92%A5%3C%2Fscript%3E")
  = encoded_payload ∧
  patterns (detect_xss ascii_only init
              (py "%3Cscript%3Ealert%281%29+%C3%A9%F0%9F%92%A5%3C%2Fscript%3E")
              (py "10.0.0.5") (py "/search") (py "2025-01-01T00:00:00")).2
  = scan ascii_only encoded_payload.
Proof.
  apply (X15_quote_plus_is_undone ascii_only encoded_payload).
  vm_compute. reflexivity.
Defined.

(** * The decoding, in full *)

(** ** The pieces a text is read in

    A percent sign with two hexadecimal digits after it, a plus sign, or
    any other character; a percent sign without two hexadecimal digits
    after it is such a character. *)
Inductive token : Type :=
  | TEscape (h1 h2 : N)
  | TPlus
  | TChar (c : N).

Definition token_text (t : token) : pystr :=
  match t with
  | TEscape h1 h2 => [chr "%"; h1; h2]
  | TPlus => [chr "+"]
  | TChar c => [c]
  end.

Definition tokens_text (ts : list token) : pystr := mjoin (token_text <$> ts).

(** What one piece stands for: the byte of the escape, a space, the
    character itself. *)
Definition token_unit (t : token) : unit8 :=
  match t with
  | TEscape h1 h2 => Byte (16 * default 0 (hexval h1) + default 0 (hexval h2))
  | TPlus => Byte (chr " ")
  | TChar c => unit_of_char c
  end.

Definition two_hex (s : pystr) : bool :=
  match s with
  | h1 :: h2 :: _ => is_hex h1 && is_hex h2
  | _ => false
  end.

(** The reading of a text in pieces, from left to right: an escape has its
    two digits, a plus sign is never taken for a character, and a percent
    sign is taken for a character only where no two digits follow. *)
Fixpoint proper (ts : list token) : Prop :=
  match ts with
  | [] => True
  | t :: ts' =>
      match t with
      | TEscape h1 h2 => is_hex h1 = true ∧ is_hex h2 = true
      | TPlus => True
      | TChar c => c ≠ chr "+" ∧ (c = chr "%" → two_hex (tokens_text ts') = false)
      end ∧ proper ts'
  end.

(** A run of units that opens with the bytes of a character. *)
Definition starts_with_char (l : list unit8) : Prop :=
  ∃ c rest, is_scalar c = true ∧ l = (Byte <$> utf8_encode c) ++ rest.

Lemma tokens_text_cons t ts : tokens_text (t :: ts) = token_text t ++ tokens_text ts.
Proof. done. Qed.

Lemma replace_plus_app (a b : pystr) :
  replace_plus (a ++ b) = replace_plus a ++ replace_plus b.
Proof. unfold replace_plus. apply fmap_app. Qed.

Lemma is_hex_not_plus h : is_hex h = true → (h =? chr "+") = false.
Proof.
  intros Hh. apply N.eqb_neq. intros ->. by vm_compute in Hh.
Qed.

Lemma two_hex_replace_plus s : two_hex (replace_plus s) = two_hex s.
Proof.
  assert (∀ c, is_hex (if c =? chr "+" then chr " " else c) = is_hex c) as Hhex.
  { intros c. destruct (c =? chr "+") eqn:Hc; [|done]. by apply N.eqb_eq in Hc as ->. }
  unfold replace_plus. destruct s as [|h1 [|h2 r]]; [done..|].
  rewrite !fmap_cons. cbn [two_hex]. by rewrite !Hhex.
Qed.

Lemma unquote_units_lone_percent t :
  two_hex t = false → unquote_units (chr "%" :: t) = Byte (chr "%") :: unquote_units t.
Proof.
  intros Ht. rewrite unquote_units_percent. destruct t as [|h1 [|h2 r]]; [done..|].
  cbn [two_hex] in Ht. unfold is_hex in Ht. by destruct (hexval h1), (hexval h2).
Qed.

Lemma unquote_units_tokens ts :
  proper ts → unquote_units (replace_plus (tokens_text ts)) = token_unit <$> ts.
Proof.
  induction ts as [|t ts IH]; [done|]. cbn [proper]. intros [Ht Hts].
  rewrite tokens_text_cons, replace_plus_app, fmap_cons, <-(IH Hts).
  destruct t as [h1 h2| |c]; cbn [token_text token_unit].
  - destruct Ht as [Hh1 Hh2]. unfold replace_plus at 1. rewrite !fmap_cons, fmap_nil.
    rewrite (is_hex_not_plus h1), (is_hex_not_plus h2) by done.
    change (chr "%" =? chr "+") with false. cbn [app].
    rewrite unquote_units_percent. unfold is_hex in Hh1, Hh2.
    by destruct (hexval h1), (hexval h2).
  - done.
  - destruct Ht as [Hplus Hpct]. unfold replace_plus at 1. rewrite fmap_cons, fmap_nil.
    rewrite (proj2 (N.eqb_neq c (chr "+"))) by done. cbn [app].
    destruct (c =? chr "%") eqn:Hc.
    + apply N.eqb_eq in Hc as ->. rewrite unquote_units_lone_percent; [done|].
      rewrite two_hex_replace_plus. by apply Hpct.
    + by rewrite unquote_units_other.
Qed.

Lemma tokens_exist content : ∃ ts, proper ts ∧ tokens_text ts = content.
Proof.
  remember (length content) as n eqn:Hn. revert content Hn.
  induction n as [n IH] using lt_wf_ind. intros content ->.
  destruct content as [|c t]; [by exists []|].
  destruct (c =? chr "+") eqn:Hplus.
  { apply N.eqb_eq in Hplus as ->.
    destruct (IH (length t) ltac:(simpl; lia) t eq_refl) as (ts & Hts & <-).
    by exists (TPlus :: ts). }
  apply N.eqb_neq in Hplus.
  destruct ((c =? chr "%") && two_hex t) eqn:Hesc.
  - apply andb_prop in Hesc as [->%N.eqb_eq Hhex].
    destruct t as [|h1 [|h2 r]]; [done..|]. cbn [two_hex] in Hhex.
    apply andb_prop in Hhex as [Hh1 Hh2].
    destruct (IH (length r) ltac:(simpl; lia) r eq_refl) as (ts & Hts & <-).
    by exists (TEscape h1 h2 :: ts).
  - destruct (IH (length t) ltac:(simpl; lia) t eq_refl) as (ts & Hts & <-).
    exists (TChar c :: ts). split; [|done]. cbn [proper]. split_and!; [done| |done].
    intros ->. by rewrite N.eqb_refl in Hesc.
Qed.

(** ** The bytes of a character, read back *)

Lemma div_mod_unique a b q r : r < b → a = b * q + r → a / b = q ∧ a mod b = r.
Proof.
  intros Hr Ha. split; symmetry;
    [by apply (N.div_unique a b q r)|by apply (N.mod_unique a b q r)].
Qed.

Lemma utf8_encode_2 c q r :
  c = 64 * q + r → 2 ≤ q < 32 → r < 64 → utf8_encode c = [0xC0 + q; 0x80 + r].
Proof.
  intros Hc Hq Hr. unfold utf8_encode.
  rewrite (proj2 (N.ltb_ge c 0x80)), (proj2 (N.ltb_lt c 0x800)) by lia.
  rewrite (proj1 (div_mod_unique c 64 q r ltac:(lia) ltac:(lia))).
  by rewrite (proj2 (div_mod_unique c 64 q r ltac:(lia) ltac:(lia))).
Qed.

Lemma utf8_encode_3 c a b d :
  c = 4096 * a + 64 * b + d → a < 16 → b < 64 → d < 64 → (a = 0 → 32 ≤ b) →
  utf8_encode c = [0xE0 + a; 0x80 + b; 0x80 + d].
Proof.
  intros Hc Ha Hb Hd H0. unfold utf8_encode.
  rewrite (proj2 (N.ltb_ge c 0x80)), (proj2 (N.ltb_ge c 0x800)),
    (proj2 (N.ltb_lt c 0x10000)) by lia.
  rewrite (proj1 (div_mod_unique c 4096 a (64 * b + d) ltac:(lia) ltac:(lia))).
  rewrite (proj1 (div_mod_unique c 64 (64 * a + b) d ltac:(lia) ltac:(lia))).
  rewrite (proj2 (div_mod_unique c 64 (64 * a + b) d ltac:(lia) ltac:(lia))).
  by rewrite (proj2 (div_mod_unique (64 * a + b) 64 a b ltac:(lia) ltac:(lia))).
Qed.

Lemma utf8_encode_4 c z a b d :
  c = 262144 * z + 4096 * a + 64 * b + d →
  z < 5 → a < 64 → b < 64 → d < 64 → (z = 0 → 16 ≤ a) →
  utf8_encode c = [0xF0 + z; 0x80 + a; 0x80 + b; 0x80 + d].
Proof.
  intros Hc Hz Ha Hb Hd H0. unfold utf8_encode.
  rewrite (proj2 (N.ltb_ge c 0x80)), (proj2 (N.ltb_ge c 0x800)),
    (proj2 (N.ltb_ge c 0x10000)) by lia.
  rewrite (proj1 (div_mod_unique c 262144 z (4096 * a + 64 * b + d) ltac:(lia) ltac:(lia))).
  rewrite (proj1 (div_mod_unique c 4096 (64 * z + a) (64 * b + d) ltac:(lia) ltac:(lia))).
  rewrite (proj1 (div_mod_unique c 64 (4096 * z + 64 * a + b) d ltac:(lia) ltac:(lia))).
  rewrite (proj2 (div_mod_unique c 64 (4096 * z + 64 * a + b) d ltac:(lia) ltac:(lia))).
  rewrite (proj2 (div_mod_unique (64 * z + a) 64 z a ltac:(lia) ltac:(lia))).
  by rewrite (proj2 (div_mod_unique (4096 * z + 64 * a + b) 64 (64 * z + a) b
                      ltac:(lia) ltac:(lia))).
Qed.

Lemma second_ok_range b0 b1 :
  second_ok b0 b1 = true →
  0x80 ≤ b1 ≤ 0xBF ∧ (b0 = 0xE0 → 0xA0 ≤ b1) ∧ (b0 = 0xED → b1 ≤ 0x9F) ∧
  (b0 = 0xF0 → 0x90 ≤ b1) ∧ (b0 = 0xF4 → b1 ≤ 0x8F).
Proof.
  unfold second_ok, is_cont.
  destruct (b0 =? 0xE0) eqn:Ha;
    [|destruct (b0 =? 0xED) eqn:Hb;
      [|destruct (b0 =? 0xF0) eqn:Hc; [|destruct (b0 =? 0xF4) eqn:Hd]]];
    rewrite in_range_spec; rewrite ?N.eqb_eq, ?N.eqb_neq in *; lia.
Qed.

Lemma is_scalar_spec c : is_scalar c = true ↔ c < 0xD800 ∨ 0xDFFF < c < 0x110000.
Proof. unfold is_scalar. by rewrite orb_true_iff, andb_true_iff, !N.ltb_lt. Qed.

Lemma encode_of_1 b0 :
  (b0 <? 0x80) = true → is_scalar b0 = true ∧ utf8_encode b0 = [b0].
Proof.
  intros Hb. unfold utf8_encode. rewrite Hb. split; [|done].
  apply N.ltb_lt in Hb. apply is_scalar_spec. lia.
Qed.

Lemma encode_of_2 b0 b1 :
  in_range 0xC2 0xDF b0 = true → is_cont b1 = true →
  ∃ c, is_scalar c = true ∧ utf8_encode c = [b0; b1].
Proof.
  unfold is_cont. rewrite !in_range_spec. intros H0 H1.
  exists (64 * (b0 - 0xC0) + (b1 - 0x80)). split.
  - apply is_scalar_spec. lia.
  - rewrite (utf8_encode_2 _ (b0 - 0xC0) (b1 - 0x80)) by lia.
    f_equal; [lia|f_equal; lia].
Qed.

Lemma encode_of_3 b0 b1 b2 :
  in_range 0xE0 0xEF b0 = true → second_ok b0 b1 = true → is_cont b2 = true →
  ∃ c, is_scalar c = true ∧ utf8_encode c = [b0; b1; b2].
Proof.
  unfold is_cont. rewrite !in_range_spec.
  intros H0 (H1 & HE0 & HED & _)%second_ok_range H2.
  exists (4096 * (b0 - 0xE0) + 64 * (b1 - 0x80) + (b2 - 0x80)). split.
  - apply is_scalar_spec. lia.
  - rewrite (utf8_encode_3 _ (b0 - 0xE0) (b1 - 0x80) (b2 - 0x80)) by lia.
    f_equal; [lia|f_equal; [lia|f_equal; lia]].
Qed.

Lemma encode_of_4 b0 b1 b2 b3 :
  in_range 0xF0 0xF4 b0 = true → second_ok b0 b1 = true →
  is_cont b2 = true → is_cont b3 = true →
  ∃ c, is_scalar c = true ∧ utf8_encode c = [b0; b1; b2; b3].
Proof.
  unfold is_cont. rewrite !in_range_spec.
  intros H0 (H1 & _ & _ & HF0 & HF4)%second_ok_range H2 H3.
  exists (262144 * (b0 - 0xF0) + 4096 * (b1 - 0x80) + 64 * (b2 - 0x80) + (b3 - 0x80)).
  split.
  - apply is_scalar_spec. lia.
  - rewrite (utf8_encode_4 _ (b0 - 0xF0) (b1 - 0x80) (b2 - 0x80) (b3 - 0x80)) by lia.
    f_equal; [lia|f_equal; [lia|f_equal; [lia|f_equal; lia]]].
Qed.

Ltac dropped k := exists k; split; [lia|reflexivity].

(** Bytes that open with no character give one U+FFFD, which stands for
    the first one, two or three of them, and the reading goes on after
    these. *)
Lemma utf8_replace_invalid b0 t :
  ¬ starts_with_char (Byte b0 :: t) →
  ∃ k, (1 ≤ k ≤ 3)%nat ∧
       utf8_replace (Byte b0 :: t) = REPLACEMENT :: utf8_replace (drop k (Byte b0 :: t)).
Proof.
  intros Hno.
  assert (∀ bytes c rest, is_scalar c = true ∧ utf8_encode c = bytes →
            Byte b0 :: t = (Byte <$> bytes) ++ rest → False) as Hvalid.
  { intros bytes c rest [Hc <-] Heq. apply Hno. by exists c, rest. }
  rewrite utf8_replace_byte.
  destruct (b0 <? 0x80) eqn:H0.
  { destruct (Hvalid [b0] b0 t (encode_of_1 b0 H0) eq_refl). }
  destruct (in_range 0xC2 0xDF b0) eqn:H2.
  { destruct t as [|[b1|c1] t1]; [dropped 1%nat| |dropped 1%nat].
    destruct (is_cont b1) eqn:H1; [|dropped 1%nat].
    destruct (encode_of_2 b0 b1 H2 H1) as [c Hc].
    destruct (Hvalid [b0; b1] c t1 Hc eq_refl). }
  destruct (in_range 0xE0 0xEF b0) eqn:H3.
  { destruct t as [|[b1|c1] t1]; [dropped 1%nat| |dropped 1%nat].
    destruct (second_ok b0 b1) eqn:H1; [|dropped 1%nat].
    destruct t1 as [|[b2|c2] t2]; [dropped 2%nat| |dropped 2%nat].
    destruct (is_cont b2) eqn:H4; [|dropped 2%nat].
    destruct (encode_of_3 b0 b1 b2 H3 H1 H4) as [c Hc].
    destruct (Hvalid [b0; b1; b2] c t2 Hc eq_refl). }
  destruct (in_range 0xF0 0xF4 b0) eqn:H4.
  { destruct t as [|[b1|c1] t1]; [dropped 1%nat| |dropped 1%nat].
    destruct (second_ok b0 b1) eqn:H1; [|dropped 1%nat].
    destruct t1 as [|[b2|c2] t2]; [dropped 2%nat| |dropped 2%nat].
    destruct (is_cont b2) eqn:H5; [|dropped 2%nat].
    destruct t2 as [|[b3|c3] t3]; [dropped 3%nat| |dropped 3%nat].
    destruct (is_cont b3) eqn:H6; [|dropped 3%nat].
    destruct (encode_of_4 b0 b1 b2 b3 H4 H1 H5 H6) as [c Hc].
    destruct (Hvalid [b0; b1; b2; b3] c t3 Hc eq_refl). }
  dropped 1%nat.
Qed.

(** ** The claim *)



(** Under [strict] the same bytes raise: the handler of the call is what
    keeps it from raising. *)
Example strict_would_raise :
  unquote_with Strict (replace_plus (py "%ff")) = None ∧
  call_unquote_plus (py "%ff") = Some [REPLACEMENT].
Proof. split; by vm_compute. Qed.
